(** * Telemetry server: a shallow embedding of [telemetryserver.js]

    The development follows the source file region by region: data
    validation helpers, the table-name sanitizer, the database
    transactions, the two request handlers and the periodic clean-up of
    the session cache.

    Conventions of the embedding.
    - A JavaScript string is a [string] whose characters are read as the
      code units 0..255 (the Latin-1 range).
    - A JavaScript number that is an integer is carried as a [Z].
      Comparison is exact; [+ 1] on a client-supplied number rounds to
      the nearest number value ([addOne]), which is exact on the safe
      range |z| < 2^53 ([isSafeInteger]).
    - What the language or the host leaves to the implementation (the
      numeric reading of a string, [Date.parse], upper-casing, the
      process environment) is a field of the record [Host]. *)

From Stdlib Require Import ZArith QArith.QArith_base String Ascii List Bool Lia.
From stdpp Require Import gmap strings list fin_maps.

Set Warnings "-register-all".
Local Open Scope string_scope.
Local Open Scope Z_scope.

(** ** JavaScript values *)

Module Js.

(** Number values: integral ones, other finite ones, the infinities, NaN.
    [NumFrac] only ever holds a non-integral value. *)
Inductive JsNum : Type :=
| NumInt (z : Z)
| NumFrac (q : Q)
| NumInf (negative : bool)
| NumNaN.

(** The values a parsed JSON body can hold, [undefined] for a missing
    property, and function objects (what reading a method off an object
    without calling it yields). *)
Inductive JsVal : Type :=
| JUndefined
| JNull
| JBool (b : bool)
| JNum (n : JsNum)
| JStr (s : string)
| JArr (items : list JsVal)
| JObj (fields : list (string * JsVal))
| JFun (name : string).

Inductive JsType : Type :=
| TUndefined | TObject | TBoolean | TNumber | TString | TFunction.

(** [typeof v]; note [typeof null === 'object']. *)
Definition typeof (v : JsVal) : JsType :=
  match v with
  | JUndefined => TUndefined
  | JNull => TObject
  | JBool _ => TBoolean
  | JNum _ => TNumber
  | JStr _ => TString
  | JArr _ => TObject
  | JObj _ => TObject
  | JFun _ => TFunction
  end.

Definition Array_isArray (v : JsVal) : bool :=
  match v with JArr _ => true | _ => false end.

(** Truthiness (ToBoolean). *)
Definition truthy (v : JsVal) : bool :=
  match v with
  | JUndefined | JNull => false
  | JBool b => b
  | JNum (NumInt z) => negb (z =? 0)
  | JNum NumNaN => false
  | JNum _ => true
  | JStr s => match s with EmptyString => false | _ => true end
  | JArr _ | JObj _ | JFun _ => true
  end.

(** [v != undefined] (loose inequality: [null] equals [undefined]). *)
Definition looseNeUndefined (v : JsVal) : bool :=
  match v with JUndefined | JNull => false | _ => true end.

(** Property read [o.k] on a parsed body: own fields of a keyed object
    (each key once, as [JSON.parse] leaves them), [undefined] otherwise. *)
Fixpoint assoc (k : string) (fields : list (string * JsVal)) : JsVal :=
  match fields with
  | [] => JUndefined
  | (k', v) :: rest => if String.eqb k k' then v else assoc k rest
  end.

Definition get (o : JsVal) (k : string) : JsVal :=
  match o with
  | JObj fields => assoc k fields
  | _ => JUndefined
  end.

(** What the engine and the process provide. *)
Record Host : Type := {
  StringToNumber : string -> JsNum;
  ObjectToString : JsVal -> string;
  Date_parse : string -> option Z;
  toUpperCase : string -> string;
  process_env : string -> option string
}.

(** ToNumber. Arrays and keyed objects convert through their string form.
    A function object converts through its source text, which is never a
    numeric literal, so the result is NaN. *)
Definition ToNumber (H : Host) (v : JsVal) : JsNum :=
  match v with
  | JUndefined => NumNaN
  | JNull => NumInt 0
  | JBool b => NumInt (if b then 1 else 0)
  | JNum n => n
  | JStr s => StringToNumber H s
  | JArr _ | JObj _ => StringToNumber H (ObjectToString H v)
  | JFun _ => NumNaN
  end.

(** The global [isNaN]: coerces its argument with ToNumber first. *)
Definition isNaN (H : Host) (v : JsVal) : bool :=
  match ToNumber H v with NumNaN => true | _ => false end.

(** [Number.isInteger]: no coercion. *)
Definition Number_isInteger (v : JsVal) : bool :=
  match v with JNum (NumInt _) => true | _ => false end.


(** The number value nearest to an integer (ties to the even
    significand). Integers of magnitude below 2^53 are number values. *)
Definition roundDouble (x : Z) : Z :=
  let m := Z.abs x in
  if m <? 2 ^ 53 then x
  else
    let e := Z.log2 m - 52 in
    let q := m / 2 ^ e in
    let r := m mod 2 ^ e in
    let q' := if r <? 2 ^ (e - 1) then q
              else if 2 ^ (e - 1) <? r then q + 1
              else if Z.even q then q else q + 1 in
    Z.sgn x * (q' * 2 ^ e).

(** [n + 1] on an integral number value. *)
Definition addOne (n : Z) : Z := roundDouble (n + 1).

(** *** Date objects

    A [Date] is its time value: milliseconds since the epoch, or [None]
    for the NaN time value of an invalid date. *)
Definition Date : Type := option Z.

Definition TimeClip (n : JsNum) : Date :=
  match n with
  | NumInt z => if Z.abs z <=? 8640000000000000 then Some z else None
  | NumFrac q =>
      let z := Z.quot (Qnum q) (Zpos (Qden q)) in
      if Z.abs z <=? 8640000000000000 then Some z else None
  | NumInf _ | NumNaN => None
  end.

(** [new Date(value)]: a string is parsed, anything else is converted to a
    number and clipped. *)
Definition new_Date (H : Host) (value : JsVal) : Date :=
  match value with
  | JStr s => Date_parse H s
  | _ => TimeClip (ToNumber H value)
  end.

(** [time.valueOf()] : the call, which yields the time value. *)
Definition Date_valueOf_call (time : Date) : JsVal :=
  match time with
  | Some t => JNum (NumInt t)
  | None => JNum NumNaN
  end.

(** [time.valueOf] : the property read, which yields the method itself. *)
Definition Date_valueOf (time : Date) : JsVal := JFun "valueOf".

End Js.
Export Js.

(** ** Strings *)

(** Strings are sequences of Latin-1 code units. On other code units
    [toLowerCase] depends on the context and may lengthen the string
    (Final_Sigma, U+0130); such strings are not covered. *)
Module Str.

Definition code (c : ascii) : N := N_of_ascii c.

(** WhiteSpace and LineTerminator code units of the Latin-1 range: what
    [trim] removes and what the class [\s] matches. *)
Definition isWhiteSpace (c : ascii) : bool :=
  let n := code c in
  ((9 <=? n) && (n <=? 13) || (n =? 32) || (n =? 160))%N.

Definition lowerChar (c : ascii) : ascii :=
  let n := code c in
  if ((65 <=? n) && (n <=? 90))%N then ascii_of_N (n + 32)
  else if ((192 <=? n) && (n <=? 222) && negb (n =? 215))%N then ascii_of_N (n + 32)
  else c.

Fixpoint toLowerCase (s : string) : string :=
  match s with
  | EmptyString => EmptyString
  | String c rest => String (lowerChar c) (toLowerCase rest)
  end.

Fixpoint trimStart (s : string) : string :=
  match s with
  | EmptyString => EmptyString
  | String c rest => if isWhiteSpace c then trimStart rest else s
  end.

Fixpoint trimEnd (s : string) : string :=
  match s with
  | EmptyString => EmptyString
  | String c rest =>
      match trimEnd rest with
      | EmptyString => if isWhiteSpace c then EmptyString else String c EmptyString
      | kept => String c kept
      end
  end.

Definition trim (s : string) : string := trimEnd (trimStart s).

(** [s.replace(/[\s-]/g, '_')] *)
Definition isSpaceOrHyphen (c : ascii) : bool :=
  isWhiteSpace c || (code c =? 45)%N.

Fixpoint replaceSpaceHyphen (s : string) : string :=
  match s with
  | EmptyString => EmptyString
  | String c rest =>
      String (if isSpaceOrHyphen c then "_"%char else c) (replaceSpaceHyphen rest)
  end.

(** [s.replace(/[.,';:]/g, '')] *)
Definition isPunct (c : ascii) : bool :=
  let n := code c in
  ((n =? 46) || (n =? 44) || (n =? 39) || (n =? 59) || (n =? 58))%N.

Fixpoint stripPunct (s : string) : string :=
  match s with
  | EmptyString => EmptyString
  | String c rest => if isPunct c then stripPunct rest else String c (stripPunct rest)
  end.

End Str.
Export Str.

(** ** Data validation (source region "Data Validation") *)

Definition isValidInteger (H : Host) (integer : JsVal) : bool :=
  negb (isNaN H integer) && Number_isInteger integer.

(** [instanceof String] holds of no value a JSON body can contain. *)
Definition instanceofString (v : JsVal) : bool := false.

Definition isValidString (text : JsVal) : bool :=
  looseNeUndefined text
  && (match typeof text with TString => true | _ => false end || instanceofString text)
  && truthy text.

Definition dateOrInvalid (H : Host) (timecode : JsVal) : Date :=
  if isValidInteger H timecode || isValidString timecode
  then new_Date H timecode
  else new_Date H (JNum NumNaN).

Definition isValidIdentifier (text : string) : bool :=
  match text with
  | EmptyString => false
  | String first _ => ((code "a" <=? code first) && (code first <=? code "z"))%N
  end.

Definition textOrPlaceholder (text : JsVal) : string :=
  match text with
  | JStr s =>
      if isValidString text
      then match trim s with EmptyString => "?" | trimmed => trimmed end
      else "?"
  | _ => "?"
  end.

(** Sanitize a string for use as a SQL table name. *)
Definition toTableName (name : string) : string :=
  stripPunct (replaceSpaceHyphen (toLowerCase name)).

Definition authenticate (H : Host) (userName userSecret : string) : bool :=
  match process_env H (toUpperCase H ("user_" ++ userName)) with
  | Some stored => String.eqb stored userSecret
  | None => false
  end.

(** ** Storage (source region "Database Transactions")

    The relational store is an external collaborator; the embedding keeps
    what the server consumes of it. Requests are handled one at a time, so
    the pool hands out one connection, [Db]: the committed tables, the
    tables as the open transaction sees them, the transaction status of
    the connection and the statements issued on it so far. *)

Record Row : Type := {
  r_session : option Z;
  r_version : string;
  r_section : string;
  r_eventType : string;
  r_time : Date;
  r_data : JsVal
}.

Inductive Sql : Type :=
| BEGIN
| COMMIT
| ROLLBACK
| DropTables (tableNames : list string)
| SelectTableExists (tableName : string)
| CreateTable (tableName : string)
| SelectMaxSession (tableName : string)
| InsertRow (tableName : string) (row : Row).

Inductive QueryResult : Type :=
| ResCommand
| ResExists (rowCount : Z) (exists_ : bool)
| ResMax (rowCount : Z) (max : JsVal).

(** Status of the connection: no transaction, inside one, or inside one
    that a failed statement has aborted (every statement but COMMIT and
    ROLLBACK is then refused). *)
Inductive TxStatus : Type := TxNone | TxActive | TxFailed.

Record Db : Type := {
  committed : gmap string (list Row);
  working : gmap string (list Row);
  tx : TxStatus;
  issued : list Sql
}.

Definition is_rollback (q : Sql) : bool :=
  match q with ROLLBACK => true | _ => false end.

(** MAX(session): the largest non-NULL value, NULL when there is none. *)
Fixpoint maxSession (rows : list Row) : option Z :=
  match rows with
  | [] => None
  | r :: rest =>
      match r_session r, maxSession rest with
      | Some a, Some b => Some (Z.max a b)
      | Some a, None => Some a
      | None, m => m
      end
  end.

(** The column [session] is a 32-bit INTEGER. *)
Definition fitsInteger (v : option Z) : bool :=
  match v with
  | None => true
  | Some z => (- 2 ^ 31 <=? z) && (z <? 2 ^ 31)
  end.

(** The columns [version], [section] and [eventType] are VARCHAR(64): a
    longer string is refused, unless what exceeds 64 characters is all
    spaces, which are then cut off. *)
Fixpoint allSpaces (s : string) : bool :=
  match s with
  | EmptyString => true
  | String c rest => (N_of_ascii c =? 32)%N && allSpaces rest
  end.

Definition varchar64 (s : string) : option string :=
  if (String.length s <=? 64)%nat then Some s
  else if allSpaces (substring 64 (String.length s - 64) s)
       then Some (substring 0 64 s)
       else None.

(** The column [time] is a TIMESTAMP: the text of an invalid date is
    refused, and so is a date before the first day of the type (Julian
    day 0, given here in milliseconds from the epoch). *)
Definition fitsTimestamp (time : Date) : bool :=
  match time with
  | Some t => -210866803200000 <=? t
  | None => false
  end.

(** [JSON.stringify(data)], as the value its text denotes. Inside the
    value, a number that is not finite becomes [null], as does an
    [undefined] or a function in an array; a property holding one of
    these is left out. *)
Fixpoint jsonValue (v : JsVal) : JsVal :=
  match v with
  | JUndefined | JFun _ => JNull
  | JNum (NumInf _) | JNum NumNaN => JNull
  | JArr items => JArr (List.map jsonValue items)
  | JObj fields =>
      JObj ((fix properties (fs : list (string * JsVal)) : list (string * JsVal) :=
               match fs with
               | [] => []
               | (k, JUndefined) :: rest | (k, JFun _) :: rest => properties rest
               | (k, x) :: rest => (k, jsonValue x) :: properties rest
               end) fields)
  | _ => v
  end.


(** There is no text for [undefined] or a function: [JSON.stringify]
    returns [undefined], which the driver sends as SQL NULL. *)
Definition JSON_stringify (v : JsVal) : option JsVal :=
  match v with
  | JUndefined | JFun _ => None
  | _ => Some (jsonValue v)
  end.

(** The row as the table created by [createTable] stores it, [None]
    when the table refuses it. The column [data] is JSONB NOT NULL: it
    holds the value of the text sent (up to the order of the keys of an
    object, which the column does not keep) and refuses SQL NULL. *)
Definition storedRow (row : Row) : option Row :=
  match varchar64 (r_version row), varchar64 (r_section row),
        varchar64 (r_eventType row), JSON_stringify (r_data row) with
  | Some version, Some section, Some eventType, Some data =>
      if fitsInteger (r_session row) && fitsTimestamp (r_time row)
      then Some {| r_session := r_session row; r_version := version;
                   r_section := section; r_eventType := eventType;
                   r_time := r_time row; r_data := data |}
      else None
  | _, _, _, _ => None
  end.

(** The tables a statement reads and writes: the transaction's view when
    one is open, the committed tables otherwise. *)
Definition view (db : Db) : gmap string (list Row) :=
  match tx db with TxNone => committed db | _ => working db end.

Definition setView (db : Db) (tables : gmap string (list Row)) : Db :=
  match tx db with
  | TxNone => {| committed := tables; working := tables; tx := TxNone; issued := issued db |}
  | status => {| committed := committed db; working := tables; tx := status; issued := issued db |}
  end.

(** What a statement does when the store accepts it; [None] when the
    store refuses it by the schema (table already there, table missing,
    a value that does not fit its column). *)
Definition execute (q : Sql) (db : Db) : option (Db * QueryResult) :=
  match q with
  | BEGIN =>
      Some ({| committed := committed db;
               working := match tx db with TxNone => committed db | _ => working db end;
               tx := TxActive; issued := issued db |}, ResCommand)
  | COMMIT =>
      Some ({| committed := match tx db with TxActive => working db | _ => committed db end;
               working := match tx db with TxActive => working db | _ => committed db end;
               tx := TxNone; issued := issued db |}, ResCommand)
  | ROLLBACK =>
      Some ({| committed := committed db; working := committed db;
               tx := TxNone; issued := issued db |}, ResCommand)
  | DropTables names =>
      if forallb (fun name => bool_decide (is_Some (view db !! name))) names
      then Some (setView db (foldr delete (view db) names), ResCommand)
      else None
  | SelectTableExists name =>
      Some (db, ResExists 1 (bool_decide (is_Some (view db !! name))))
  | CreateTable name =>
      match view db !! name with
      | Some _ => None
      | None => Some (setView db (<[name := []]> (view db)), ResCommand)
      end
  | SelectMaxSession name =>
      match view db !! name with
      | None => None
      | Some rows =>
          Some (db, ResMax 1 (match maxSession rows with
                              | Some m => JNum (NumInt m)
                              | None => JNull
                              end))
      end
  | InsertRow name row =>
      match view db !! name with
      | None => None
      | Some rows =>
          match storedRow row with
          | Some stored =>
              Some (setView db (<[name := (rows ++ [stored])%list]> (view db)), ResCommand)
          | None => None
          end
      end
  end.

Definition logIssued (q : Sql) (db : Db) : Db :=
  {| committed := committed db; working := working db; tx := tx db;
     issued := (issued db ++ [q])%list |}.

(** The connection after a statement failed: an open transaction becomes
    an aborted one; a failed COMMIT ends the transaction without applying
    it. *)
Definition afterFailure (q : Sql) (db : Db) : Db :=
  match q with
  | COMMIT | ROLLBACK =>
      {| committed := committed db; working := committed db; tx := TxNone;
         issued := issued db |}
  | _ =>
      {| committed := committed db; working := working db;
         tx := match tx db with TxNone => TxNone | _ => TxFailed end;
         issued := issued db |}
  end.

(** [client.query(q)]. [faults n] tells whether the [n]-th statement the
    server issues fails for a reason outside the schema (lost link,
    server error, a statement text that is not well-formed for the table
    name it is built from, a string the store cannot encode, ...). Inside an aborted transaction only COMMIT
    and ROLLBACK are accepted, and both end it without applying it. *)
Definition query (faults : nat -> bool) (q : Sql) (db : Db) : Db * option QueryResult :=
  let n := length (issued db) in
  let db1 := logIssued q db in
  let refused :=
    match tx db, q with
    | TxFailed, (COMMIT | ROLLBACK) => false
    | TxFailed, _ => true
    | _, _ => false
    end in
  if faults n || refused then (afterFailure q db1, None)
  else match execute q db1 with
       | Some (db2, res) => (db2, Some res)
       | None => (afterFailure q db1, None)
       end.

Definition createTable (faults : nat -> bool) (tableName : string) (db : Db)
  : Db * option QueryResult :=
  query faults (CreateTable tableName) db.

(** [pool.query] (line 393 hands the pool, not a client, to
    [recordEntry]) runs the statement on a client it checks out and, when
    the statement failed, destroys that client instead of returning it:
    whatever transaction the connection was in is gone with it, and the
    next statement runs on a new, idle connection. *)
Definition poolDiscard (db : Db) : Db :=
  {| committed := committed db; working := committed db; tx := TxNone;
     issued := issued db |}.

(** Inserts an event into the telemetry table, with the specified data.
    [data] stands for the JSON text [JSON.stringify(data)]. *)
Definition recordEntry (faults : nat -> bool) (table : string) (session : Z)
    (version section eventType : string) (time : Date) (data : JsVal) (db : Db)
  : Db * option QueryResult :=
  let values :=
    {| r_session := Some session;
       r_version := version;
       r_section := (match section with EmptyString => "Default" | _ => section end);
       r_eventType := eventType;
       r_time := time;
       r_data := data |} in
  query faults (InsertRow table values) db.

(** *** Exceptions and the transaction script

    The body of a [try] block is a computation over the connection that
    either yields a value or throws. *)

Inductive Exn : Type :=
| ConnectError
| QueryError (q : Sql)
| TypeError (what : string).

Definition Try (A : Type) : Type := Db -> Db * (A + Exn).

Definition ret {A} (a : A) : Try A := fun db => (db, inl a).
Definition throw {A} (e : Exn) : Try A := fun db => (db, inr e).
Definition bind {A B} (m : Try A) (k : A -> Try B) : Try B :=
  fun db =>
    match m db with
    | (db', inl a) => k a db'
    | (db', inr e) => (db', inr e)
    end.

Declare Scope try_scope.
Delimit Scope try_scope with try.
Notation "x <- m ;; k" := (bind m (fun x => k))
  (at level 100, m at next level, right associativity) : try_scope.
Notation "m ;;; k" := (bind m (fun _ => k))
  (at level 100, right associativity) : try_scope.

(** [await client.query(q)]: a rejected promise throws at the [await]. *)
Definition await (q : Sql) (run : Db -> Db * option QueryResult) : Try QueryResult :=
  fun db =>
    match run db with
    | (db', Some res) => (db', inl res)
    | (db', None) => (db', inr (QueryError q))
    end.

Definition awaitQuery (faults : nat -> bool) (q : Sql) : Try QueryResult :=
  await q (query faults q).

(** [await pool.connect()] *)
Definition poolConnect (connects : bool) : Try unit :=
  if connects then ret tt else throw ConnectError.

Inductive Message : Type :=
| MsgAuthFailed
| MsgCreated (name : string) (sessionId : Z)
| MsgAuthenticated (name : string) (sessionId : Z)
| MsgSessionStartError (name : string) (e : Exn).

Record AuthResult : Type := { sessionId : Z; message : Message }.

(** What running a function to its end gives: a returned value or an
    exception that escapes it. *)
Inductive Completion (A : Type) : Type :=
| Returned (a : A)
| Escaped (e : Exn).
Arguments Returned {A} a.
Arguments Escaped {A} e.

(** The number carried by an integral number value. *)
Definition asInteger (v : JsVal) : Z :=
  match v with JNum (NumInt z) => z | _ => 0 end.

Section BeginSession.
Variable H : Host.
Variable connects : bool.
Variable faults : nat -> bool.
Variables sanitizedName userSecret version section : string.
Variable time : Date.
Variable setupId : string.

Local Open Scope try_scope.

(** Lines 250-255: the SessionStart row, the COMMIT and the result. *)
Definition beginSession_finish (sessionId : Z) (message : Message) : Try AuthResult :=
  await (InsertRow sanitizedName
           {| r_session := Some sessionId; r_version := version;
              r_section := (match section with EmptyString => "Default" | _ => section end);
              r_eventType := "SessionStart"; r_time := time;
              r_data := JObj [("setup", JStr setupId)] |})
        (recordEntry faults sanitizedName sessionId version section "SessionStart"
                     time (JObj [("setup", JStr setupId)])) ;;;
  awaitQuery faults COMMIT ;;;
  ret {| sessionId := sessionId; message := message |}.

(** Lines 224-255: the body of the [try] block. *)
Definition beginSession_try : Try AuthResult :=
  poolConnect connects ;;;
  awaitQuery faults BEGIN ;;;
  tableResult <- awaitQuery faults (SelectTableExists sanitizedName) ;;
  let sessionId := 0 in
  match tableResult with
  | ResExists rowCount exists_ =>
      if (rowCount =? 0) || negb exists_ then
        let message := MsgCreated sanitizedName sessionId in
        await (CreateTable sanitizedName) (createTable faults sanitizedName) ;;;
        beginSession_finish sessionId message
      else
        sessionResult <- awaitQuery faults (SelectMaxSession sanitizedName) ;;
        match sessionResult with
        | ResMax rowCount' max =>
            let sessionId :=
              if (0 <? rowCount') && isValidInteger H max then asInteger max
              else sessionId in
            (* [sessionId++]: exact, the column is a 32-bit INTEGER *)
            let sessionId := sessionId + 1 in
            let message := MsgAuthenticated sanitizedName sessionId in
            beginSession_finish sessionId message
        | _ => throw (TypeError "rows[0].max")
        end
  | _ => throw (TypeError "rows[0].exists")
  end.

(** Authenticate and set up table / session index for a new connection.
    The [catch] block turns an exception into a result with session
    index -1; it issues no statement. The [finally] block releases the
    client, which throws when [pool.connect] had failed and [client] is
    still undefined. *)
Definition tryBeginSession (db : Db) : Db * Completion AuthResult :=
  if negb (authenticate H sanitizedName userSecret) then
    (db, Returned {| sessionId := -1; message := MsgAuthFailed |})
  else
    let '(db', outcome) := beginSession_try db in
    let result :=
      match outcome with
      | inl r => r
      | inr e => {| sessionId := -1; message := MsgSessionStartError sanitizedName e |}
      end in
    if connects then (db', Returned result)
    else (db', Escaped (TypeError "client.release")).

End BeginSession.

(** *** Database connection initialization routine (lines 43-71)

    [reset] is the constant the source sets to [false]. The client is
    checked out before the [try] block (line 50): when [pool.connect]
    fails its error escapes at once, past [catch] and [finally]. The
    [catch] block of this routine issues ROLLBACK and rethrows. *)
Definition initialize (connects : bool) (faults : nat -> bool) (reset : bool) (db : Db)
  : Db * Completion unit :=
  if negb connects then (db, Escaped ConnectError) else
  let body : Try unit :=
    (if reset then
       (awaitQuery faults BEGIN ;;;
        awaitQuery faults (DropTables ["testing"; "gregdoug"]) ;;;
        awaitQuery faults COMMIT ;;;
        ret tt)
     else ret tt)%try in
  match body db with
  | (db', inl _) => (db', Returned tt)
  | (db', inr e) =>
      match awaitQuery faults ROLLBACK db' with
      | (db'', inl _) => (db'', Escaped e)
      | (db'', inr e') => (db'', Escaped e')
      end
  end.

(** ** The session cache and the request handlers *)

Record SessionInfo : Type := {
  s_table : string;
  s_id : Z;
  s_version : string;
  s_section : string;
  s_lastAccess : Z;
  s_nextSequence : Z
}.

(** The names [sessions[key]] finds on [Object.prototype] when the
    object [sessions] has no property of its own under them. *)
Definition prototypeMembers : list string :=
  ["constructor"; "__defineGetter__"; "__defineSetter__"; "hasOwnProperty";
   "__lookupGetter__"; "__lookupSetter__"; "isPrototypeOf"; "propertyIsEnumerable";
   "toString"; "valueOf"; "__proto__"; "toLocaleString"].

Definition isPrototypeMember (key : string) : bool :=
  existsb (String.eqb key) prototypeMembers.

(** The process state: the cache of session objects (the own properties
    of the object [sessions], keyed by session key) and the store. The
    lookup [sessions[key]] of the handlers is a lookup in the cache for
    every key that is in the cache or is no [isPrototypeMember]; a log
    request under any other key reads the inherited member and is not
    covered. *)
Record Server : Type := {
  sessions : gmap string SessionInfo;
  db : Db
}.

Definition HTTP_SUCCESS : Z := 200.
Definition HTTP_BAD_REQUEST : Z := 400.
Definition HTTP_INTERNAL_ERROR : Z := 500.

(** The texts the handlers send, by template. *)
Inductive Text : Type :=
| AuthNoBody
| InvalidUserName
| InvalidSecretKey
| InvalidTimestamp (type : JsType) (timecode : JsVal)
| BeginSessionFailed (message : Message)
| LogNoBody
| InvalidSessionKey
| SessionKeyNotFound
| InvalidSequenceNumber
| InvalidEventType
| ErrorLogging (eventType table : string) (e : Exn).

Inductive Reply : Type :=
| SendText (status : Z) (text : Text)
| SendEmpty (status : Z)
| SendConnected (sessionKey : string) (sessionIndex : Z) (message : Message).

Definition status (r : Reply) : Z :=
  match r with
  | SendText st _ => st
  | SendEmpty st => st
  | SendConnected _ _ _ => HTTP_SUCCESS
  end.

(** The string carried by a string value. *)
Definition asString (v : JsVal) : string :=
  match v with JStr s => s | _ => "" end.

(** [session.lastAccess = Date.now()] *)
Definition touch (now : Z) (session : SessionInfo) : SessionInfo :=
  {| s_table := s_table session; s_id := s_id session;
     s_version := s_version session; s_section := s_section session;
     s_lastAccess := now; s_nextSequence := s_nextSequence session |}.

(** [session.nextSequence = n] *)
Definition setNextSequence (n : Z) (session : SessionInfo) : SessionInfo :=
  {| s_table := s_table session; s_id := s_id session;
     s_version := s_version session; s_section := s_section session;
     s_lastAccess := s_lastAccess session; s_nextSequence := n |}.

(** The timestamp test of lines 304 and 363 as written:
    [isNaN(time.valueOf)], on the method, not on its result. *)
Definition timestampTest (H : Host) (time : Date) : bool :=
  isNaN H (Date_valueOf time).

(** Lines 373-389: parse data into a corresponding structure, defaulting
    to an empty object. The result is the value handed to
    [JSON.stringify]. *)
Definition parseData (reqData : JsVal) : JsVal :=
  let data := JObj [] in
  match typeof reqData with
  | TString | TNumber | TBoolean => JObj [("value", reqData)]
  | TObject =>
      if Array_isArray reqData then JObj [("list", reqData)]
      else reqData
  | _ => data
  end.

(** Lines 317-319: [do { sessionKey = short.generate(); } while
    (sessions[sessionKey] !== undefined)]. [generate i] is the [i]-th
    value the generator returns; [fuel] bounds the iterations the model
    follows, and [None] says the loop is still running after them. The
    result carries the number of draws made. *)
Fixpoint generateSessionKey (fuel : nat) (generate : nat -> string) (drawn : nat)
    (cache : gmap string SessionInfo) : option (string * nat) :=
  match fuel with
  | O => None
  | S fuel' =>
      let sessionKey := generate drawn in
      match cache !! sessionKey with
      | None => Some (sessionKey, S drawn)
      | Some _ => generateSessionKey fuel' generate (S drawn) cache
      end
  end.

(** A log request whose INSERT is in flight: what the handler holds
    across the [await] of line 393. *)
Record PendingLog : Type := {
  p_key : string;
  p_sequence : Z;
  p_table : string;
  p_id : Z;
  p_version : string;
  p_section : string;
  p_eventType : string;
  p_time : Date;
  p_data : JsVal
}.


Section Handlers.
Variable H : Host.
(** The outcome of the timestamp test of lines 304 and 363. The
    handlers proper, [tryConnect] and [tryLogEvent] below, take the test
    as the source writes it, [timestampTest]. *)
Variable invalidTimestamp : Date -> bool.
(** [Date.now()] at the request, and the store's faults. *)
Variable now : Z.
Variable faults : nat -> bool.

(** Handle request to log telemetry event (lines 342-405), the
    timestamp test abstracted. *)
Definition tryLogEventWith (body : JsVal) (st : Server) : Server * Reply :=
  if negb (truthy body) then (st, SendText HTTP_BAD_REQUEST LogNoBody) else
  if negb (isValidString (get body "sessionKey"))
  then (st, SendText HTTP_BAD_REQUEST InvalidSessionKey) else
  let key := trim (asString (get body "sessionKey")) in
  match sessions st !! key with
  | None => (st, SendText HTTP_BAD_REQUEST SessionKeyNotFound)
  | Some found =>
      (* Found valid session - keep its access timestamp fresh. *)
      let session := touch now found in
      let st1 := {| sessions := <[key := session]> (sessions st); db := db st |} in
      if negb (isValidInteger H (get body "sequence"))
      then (st1, SendText HTTP_BAD_REQUEST InvalidSequenceNumber) else
      let sequence := asInteger (get body "sequence") in
      (* Silently reject duplicate events we've already handled. *)
      if sequence <? s_nextSequence session then (st1, SendEmpty 200) else
      let time := dateOrInvalid H (get body "timecode") in
      if invalidTimestamp time
      then (st1, SendText HTTP_BAD_REQUEST
                   (InvalidTimestamp (typeof (get body "timecode")) (get body "timecode")))
      else
      if negb (isValidString (get body "eventType"))
      then (st1, SendText HTTP_BAD_REQUEST InvalidEventType) else
      let eventType := textOrPlaceholder (get body "eventType") in
      let section := textOrPlaceholder (get body "section") in
      let data := parseData (get body "data") in
      match recordEntry faults (s_table session) (s_id session) (s_version session)
                        section eventType time data (db st1) with
      | (db', Some _) =>
          ({| sessions := <[key := setNextSequence (addOne sequence) session]> (sessions st1);
              db := db' |},
           SendEmpty 200)
      | (db', None) =>
          (* The statement went through [pool.query]: the pool destroys a
             client whose statement failed. *)
          ({| sessions := sessions st1; db := poolDiscard db' |},
           SendText HTTP_INTERNAL_ERROR
             (ErrorLogging eventType (s_table session)
                (QueryError (InsertRow (s_table session)
                   {| r_session := Some (s_id session); r_version := s_version session;
                      r_section := (match section with EmptyString => "Default" | _ => section end);
                      r_eventType := eventType; r_time := time; r_data := data |}))))
      end
  end.

(** The same handler in the two turns the [await] of line 393 cuts it
    into. Other requests run between the two. *)


(** Lines 393-405, from the [await] on: the INSERT settles and the
    handler resumes. [session] is the object found at line 348; the
    assignment of line 394 stores into it without reading
    [session.nextSequence] again. The object is the one the cache holds
    under the key (a key is not drawn a second time); when the sweep has
    deleted it meanwhile, the assignment is lost with it. *)
Definition logEventComplete (p : PendingLog) (st : Server) : Server * Reply :=
  match recordEntry faults (p_table p) (p_id p) (p_version p) (p_section p)
                    (p_eventType p) (p_time p) (p_data p) (db st) with
  | (db', Some _) =>
      ({| sessions := alter (setNextSequence (addOne (p_sequence p))) (p_key p) (sessions st);
          db := db' |},
       SendEmpty 200)
  | (db', None) =>
      ({| sessions := sessions st; db := poolDiscard db' |},
       SendText HTTP_INTERNAL_ERROR
         (ErrorLogging (p_eventType p) (p_table p)
            (QueryError (InsertRow (p_table p)
               {| r_session := Some (p_id p); r_version := p_version p;
                  r_section := (match p_section p with
                                | EmptyString => "Default"
                                | _ => p_section p
                                end);
                  r_eventType := p_eventType p; r_time := p_time p;
                  r_data := p_data p |}))))
  end.


(** [pool.connect()] succeeding or not, the key generator and the
    number of iterations of the key loop the model follows. *)
Variable connects : bool.
Variable generate : nat -> string.
Variable fuel : nat.

(** Handle connection request (lines 284-335), the timestamp test
    abstracted. [None]: the key loop is still running after [fuel]
    iterations. An exception escaping [tryBeginSession] escapes the
    handler. *)
Definition tryConnectWith (body : JsVal) (st : Server)
  : option (Server * Completion Reply) :=
  if negb (truthy body)
  then Some (st, Returned (SendText HTTP_BAD_REQUEST AuthNoBody)) else
  if negb (isValidString (get body "userName"))
  then Some (st, Returned (SendText HTTP_BAD_REQUEST InvalidUserName)) else
  if negb (isValidString (get body "secret"))
  then Some (st, Returned (SendText HTTP_BAD_REQUEST InvalidSecretKey)) else
  let sanitizedName := toTableName (trim (asString (get body "userName"))) in
  if negb (isValidIdentifier sanitizedName)
  then Some (st, Returned (SendText HTTP_BAD_REQUEST InvalidUserName)) else
  let secret := trim (asString (get body "secret")) in
  let version := textOrPlaceholder (get body "version") in
  let section := textOrPlaceholder (get body "section") in
  let setupId := textOrPlaceholder (get body "setupId") in
  let time := dateOrInvalid H (get body "timecode") in
  if invalidTimestamp time
  then Some (st, Returned (SendText HTTP_BAD_REQUEST
               (InvalidTimestamp (typeof (get body "timecode")) (get body "timecode"))))
  else
  match tryBeginSession H connects faults sanitizedName secret version section
                        time setupId (db st) with
  | (db', Escaped e) => Some ({| sessions := sessions st; db := db' |}, Escaped e)
  | (db', Returned {| sessionId := sessionId; message := message |}) =>
      let st1 := {| sessions := sessions st; db := db' |} in
      (* A negative session index indicates something went wrong. *)
      if sessionId <? 0
      then Some (st1, Returned (SendText HTTP_BAD_REQUEST (BeginSessionFailed message)))
      else
      match generateSessionKey fuel generate 0 (sessions st1) with
      | None => None
      | Some (sessionKey, _) =>
          Some ({| sessions :=
                     <[sessionKey :=
                         {| s_table := sanitizedName; s_id := sessionId;
                            s_version := version; s_section := section;
                            s_lastAccess := now; s_nextSequence := 0 |}]> (sessions st1);
                   db := db' |},
                Returned (SendConnected sessionKey sessionId message))
      end
  end.

End Handlers.

(** The handlers as the source has them. *)
Definition tryLogEvent (H : Host) : Z -> (nat -> bool) -> JsVal -> Server -> Server * Reply :=
  tryLogEventWith H (timestampTest H).

Definition tryConnect (H : Host)
  : Z -> (nat -> bool) -> bool -> (nat -> string) -> nat -> JsVal -> Server
    -> option (Server * Completion Reply) :=
  tryConnectWith H (timestampTest H).

(** ** Clean-up (lines 471-493) *)

(** Run a purge every 30 minutes. *)
Definition SESSION_INTERVAL : Z := (fun minutes => minutes * 60 * 1000) 30.

(** [Object.keys(sessions)]: the keys of the cache, each once. *)
Definition Object_keys (cache : gmap string SessionInfo) : list string :=
  (map_to_list cache).*1.

Record Sweep : Type := {
  cache : gmap string SessionInfo;
  deleted : nat;
  remaining : nat
}.

(** One iteration of the loop. Reading [lastAccess] off a key that is no
    longer in the cache would throw. *)
Definition cleanupStep (threshold : Z) (acc : Completion Sweep) (key : string)
  : Completion Sweep :=
  match acc with
  | Escaped e => Escaped e
  | Returned sw =>
      match cache sw !! key with
      | None => Escaped (TypeError "sessions[key].lastAccess")
      | Some session =>
          if s_lastAccess session <? threshold
          then Returned {| cache := delete key (cache sw);
                           deleted := S (deleted sw); remaining := remaining sw |}
          else Returned {| cache := cache sw;
                           deleted := deleted sw; remaining := S (remaining sw) |}
      end
  end.

Definition cleanupOldSessions (now : Z) (sessions : gmap string SessionInfo)
  : Completion Sweep :=
  let threshold := now - SESSION_INTERVAL in
  foldl (cleanupStep threshold)
        (Returned {| cache := sessions; deleted := 0; remaining := 0 |})
        (Object_keys sessions).

(** ** Fixtures used by the examples *)

Definition upperChar (c : ascii) : ascii :=
  let n := code c in
  if ((97 <=? n) && (n <=? 122))%N then ascii_of_N (n - 32) else c.

Fixpoint upperAscii (s : string) : string :=
  match s with
  | EmptyString => EmptyString
  | String c rest => String (upperChar c) (upperAscii rest)
  end.

(** A host whose environment holds the secret of one team, [teama]. *)
Definition demoHost : Host :=
  {| StringToNumber := fun _ => NumNaN;
     ObjectToString := fun _ => "[object Object]";
     Date_parse := fun _ => None;
     toUpperCase := upperAscii;
     process_env := fun k => if String.eqb k "USER_TEAMA" then Some "s3cret" else None |}.

Definition noFaults : nat -> bool := fun _ => false.

Definition emptyDb : Db :=
  {| committed := ∅; working := ∅; tx := TxNone; issued := [] |}.

Definition demoSession (lastAccess nextSequence : Z) : SessionInfo :=
  {| s_table := "teama"; s_id := 0; s_version := "1.0"; s_section := "Menu";
     s_lastAccess := lastAccess; s_nextSequence := nextSequence |}.

Definition logBody (sequence timecode data : JsVal) : JsVal :=
  JObj [("sessionKey", JStr "k1"); ("sequence", sequence); ("timecode", timecode);
        ("eventType", JStr "LevelStart"); ("data", data)].

Definition connectBody (timecode : JsVal) : JsVal :=
  JObj [("userName", JStr "teamA"); ("secret", JStr "s3cret"); ("timecode", timecode)].

(** ** Notions the statements and proofs use *)

(** A character the three passes of [toTableName] leave alone. *)
Definition settled (c : ascii) : bool :=
  (code (lowerChar c) =? code c)%N && negb (isSpaceOrHyphen c) && negb (isPunct c).

Fixpoint allSettled (s : string) : bool :=
  match s with
  | EmptyString => true
  | String c rest => settled c && allSettled rest
  end.

(** What the sweep leaves of an entry when the threshold is [threshold]. *)
Definition swept (threshold : Z) (entry : option SessionInfo) : option SessionInfo :=
  match entry with
  | Some session => if s_lastAccess session <? threshold then None else Some session
  | None => None
  end.

(** The log request [body] carries a session key that, trimmed, is [key],
    under which the cache holds [session]. *)
Definition resolves (body : JsVal) (st : Server) (key : string) (session : SessionInfo)
  : Prop :=
  exists raw, get body "sessionKey" = JStr raw /\ raw <> ""
              /\ key = trim raw /\ sessions st !! key = Some session.

(** A generator that returns a cached key [n] times, then a new one. *)
Definition collideThenFresh (n : nat) : nat -> string :=
  fun i => if (i <? n)%nat then "k1" else "k2".


(** The three ways a log request on the resolved [session] ends: without
    touching the store, with the row written, with the write refused. *)
Inductive LogOutcome (faults : nat -> bool) (now : Z) (body : JsVal) (st : Server)
    (key : string) (session : SessionInfo) (st' : Server) (reply : Reply) : Prop :=
| NotWritten :
    db st' = db st ->
    sessions st' = <[key := touch now session]> (sessions st) ->
    (status reply = HTTP_BAD_REQUEST
     \/ (reply = SendEmpty 200
         /\ asInteger (get body "sequence") < s_nextSequence session)) ->
    LogOutcome faults now body st key session st' reply
| Written (row : Row) (res : QueryResult) :
    s_nextSequence session <= asInteger (get body "sequence") ->
    query faults (InsertRow (s_table session) row) (db st) = (db st', Some res) ->
    r_data row = parseData (get body "data") ->
    sessions st'
    = <[key := setNextSequence (addOne (asInteger (get body "sequence"))) (touch now session)]>
        (sessions st) ->
    reply = SendEmpty 200 ->
    LogOutcome faults now body st key session st' reply
| WriteFailed (row : Row) :
    s_nextSequence session <= asInteger (get body "sequence") ->
    (exists db1, query faults (InsertRow (s_table session) row) (db st) = (db1, None)
                 /\ db st' = poolDiscard db1) ->
    sessions st' = <[key := touch now session]> (sessions st) ->
    status reply = HTTP_INTERNAL_ERROR ->
    LogOutcome faults now body st key session st' reply.

(** The connection is not inside a live transaction: it is idle, or the
    transaction it is in has been aborted. *)
Definition settledTx (db : Db) : Prop := tx db = TxNone \/ tx db = TxFailed.

(** Every statement a computation issues satisfies [P]. *)
Definition issues {A} (P : Sql -> Prop) (m : Try A) : Prop :=
  forall db db' r, m db = (db', r) ->
                   exists l, issued db' = (issued db ++ l)%list /\ Forall P l.

Definition notRollback (q : Sql) : Prop := is_rollback q = false.

(** [afterFailures H name db db']: from [db], a series of session starts
    for [name], none of which returned a session index (each returned a
    negative one or let an exception escape), leads to [db']. *)
Inductive afterFailures (H : Host) (name : string) : Db -> Db -> Prop :=
| NoAttempt db : afterFailures H name db db
| FailedAttempt db db1 db2 connects faults secret version section time setupId out :
    tryBeginSession H connects faults name secret version section time setupId db
    = (db1, out) ->
    (forall r, out = Returned r -> sessionId r < 0) ->
    afterFailures H name db1 db2 ->
    afterFailures H name db db2.

(** A store whose only table is [teama], with the connection idle. *)
Definition teamaDb (rows : list Row) : Db :=
  {| committed := {["teama" := rows]}; working := {["teama" := rows]};
     tx := TxNone; issued := [] |}.

(** ** HTTP server configuration (lines 431-467) *)

(** [s.indexOf(sub)], counting from [from]: the position of the first
    occurrence, -1 when there is none. *)
Fixpoint indexOfFrom (sub s : string) (from : Z) : Z :=
  if String.prefix sub s then from
  else match s with
       | EmptyString => -1
       | String _ rest => indexOfFrom sub rest (from + 1)
       end.

Definition indexOf (s sub : string) : Z := indexOfFrom sub s 0.

Definition startsWith (s p : string) : bool := String.prefix p s.

(** The [origin] function of [corsOptions]: [true] for
    [callback(null, true)], [false] for the callback with the error
    'Not allowed by CORS'. [None] is a request without Origin header. *)
Definition corsOrigin (origin : option string) : bool :=
  match origin with
  | None => true
  | Some o =>
      negb (truthy (JStr o))
      || negb (indexOf o "itch.io/" =? -1)
      || negb (indexOf o "ssl.hwcdn.net" =? -1)
      || startsWith o "http://localhost"
      || startsWith o "chrome-extension://"
  end.

(** Endpoint to poke the server (lines 275-277). *)
Definition awake : Reply := SendEmpty HTTP_SUCCESS.

(** ** Further notions the statements use *)

(** A string that does not begin with a white-space character. *)
Definition headClean (s : string) : Prop :=
  match s with
  | EmptyString => True
  | String c _ => isWhiteSpace c = false
  end.

(** The characters of a string. *)
Fixpoint chars (s : string) : list ascii :=
  match s with
  | EmptyString => []
  | String c rest => c :: chars rest
  end.

(** [sub] occurs in [s]. *)
Definition occursIn (sub s : string) : Prop :=
  exists pre post, s = (pre ++ sub ++ post)%string.

(** The store meets no fault from the state [db] on: no statement issued
    from now on fails for a reason outside the schema. *)
Definition quietFrom (faults : nat -> bool) (db : Db) : Prop :=
  forall n, (length (issued db) <= n)%nat -> faults n = false.

(** Two computations that run alike, and keep the store quiet, whenever
    they start in a quiet store. *)
Definition quietEq {A} (faults : nat -> bool) (m m' : Try A) : Prop :=
  forall db, quietFrom faults db -> m db = m' db /\ quietFrom faults (fst (m db)).

(** * Properties *)

(** ** The sanitizer *)

Section Sanitizer.

Lemma settled_fixed c :
  settled c = true ->
  lowerChar c = c /\ isSpaceOrHyphen c = false /\ isPunct c = false.
Proof.
  unfold settled. intros Hs.
  apply andb_prop in Hs as [Hs Hp]. apply andb_prop in Hs as [Hl Hw].
  apply negb_true_iff in Hp, Hw. split; [|auto].
  apply N.eqb_eq in Hl. unfold code in Hl.
  rewrite <- (ascii_N_embedding (lowerChar c)), Hl. apply ascii_N_embedding.
Qed.

(** Whatever survives the three passes is settled. *)
Lemma pass_settles c :
  let c' := if isSpaceOrHyphen (lowerChar c) then "_"%char else lowerChar c in
  isPunct c' = false -> settled c' = true.
Proof.
  destruct c as [[] [] [] [] [] [] [] []]; vm_compute; intros; congruence.
Qed.

Lemma toTableName_settled name : allSettled (toTableName name) = true.
Proof.
  unfold toTableName. induction name as [|c rest IH]; [reflexivity|].
  cbn [toLowerCase replaceSpaceHyphen stripPunct].
  pose proof (pass_settles c) as Hc. cbv zeta in Hc.
  destruct (isPunct (if isSpaceOrHyphen (lowerChar c) then "_"%char else lowerChar c)) eqn:Hp.
  - exact IH.
  - cbn [allSettled]. rewrite Hc by reflexivity. exact IH.
Qed.


End Sanitizer.


Example toTableName_teamA : toTableName "Team-A's  log.v2" = "team_as__logv2".
Proof. reflexivity. Qed.

(** ** The clean-up of the session cache *)

Section Cleanup.
Variable threshold : Z.

Lemma cleanup_loop (keys : list string) :
  forall (m : gmap string SessionInfo) (d r : nat),
    NoDup keys ->
    (forall k, k ∈ keys -> is_Some (m !! k)) ->
    exists m' d' r',
      foldl (cleanupStep threshold)
            (Returned {| cache := m; deleted := d; remaining := r |}) keys
      = Returned {| cache := m'; deleted := d'; remaining := r' |}
      /\ (d' + r' = d + r + length keys)%nat
      /\ (forall k, k ∈ keys -> m' !! k = swept threshold (m !! k))
      /\ (forall k, k ∉ keys -> m' !! k = m !! k).
Proof.
  induction keys as [|key rest IH]; intros m d r Hnd Hin.
  - exists m, d, r. split; [done|]. split; [cbn; lia|]. split; [|done].
    intros k Hk. by apply elem_of_nil in Hk.
  - apply NoDup_cons in Hnd as [Hfresh Hnd].
    destruct (Hin key) as [s Hs]; [by left|].
    cbn [foldl cleanupStep cache]. rewrite Hs.
    destruct (s_lastAccess s <? threshold) eqn:Hold.
    + destruct (IH (delete key m) (S d) r Hnd) as (m' & d' & r' & Hrun & Hcount & Hkeys & Hfar).
      { intros k Hk. rewrite lookup_delete_ne by (intros ->; done). apply Hin. by right. }
      exists m', d', r'. cbn [deleted remaining]. rewrite Hrun.
      split; [done|]. split; [cbn [length]; lia|]. split.
      * intros k Hk. apply elem_of_cons in Hk as [->|Hk].
        -- rewrite Hfar by done. rewrite lookup_delete_eq, Hs. cbn. by rewrite Hold.
        -- rewrite Hkeys by done. rewrite lookup_delete_ne by (intros ->; done). done.
      * intros k Hk. apply not_elem_of_cons in Hk as [Hne Hk].
        rewrite Hfar by done. by rewrite lookup_delete_ne.
    + destruct (IH m d (S r) Hnd) as (m' & d' & r' & Hrun & Hcount & Hkeys & Hfar).
      { intros k Hk. apply Hin. by right. }
      exists m', d', r'. cbn [deleted remaining]. rewrite Hrun.
      split; [done|]. split; [cbn [length]; lia|]. split.
      * intros k Hk. apply elem_of_cons in Hk as [->|Hk].
        -- rewrite Hfar by done. rewrite Hs. cbn. by rewrite Hold.
        -- by apply Hkeys.
      * intros k Hk. apply not_elem_of_cons in Hk as [Hne Hk]. by apply Hfar.
Qed.

End Cleanup.

Lemma Object_keys_spec (m : gmap string SessionInfo) (k : string) :
  k ∈ Object_keys m <-> is_Some (m !! k).
Proof.
  unfold Object_keys. rewrite list_elem_of_fmap. split.
  - intros [[k' s] [-> Hin]]. apply elem_of_map_to_list in Hin. by exists s.
  - intros [s Hs]. exists (k, s). split; [done|]. by apply elem_of_map_to_list.
Qed.

Lemma cleanupOldSessions_result (now : Z) (sessions : gmap string SessionInfo) :
  exists sw,
    cleanupOldSessions now sessions = Returned sw
    /\ (forall k, cache sw !! k = swept (now - SESSION_INTERVAL) (sessions !! k))
    /\ (deleted sw + remaining sw = size sessions)%nat.
Proof.
  unfold cleanupOldSessions.
  destruct (cleanup_loop (now - SESSION_INTERVAL) (Object_keys sessions) sessions 0 0)
    as (m' & d' & r' & Hrun & Hcount & Hkeys & Hfar).
  { apply NoDup_fst_map_to_list. }
  { intros k. apply Object_keys_spec. }
  exists {| cache := m'; deleted := d'; remaining := r' |}. cbn [cache deleted remaining].
  split; [exact Hrun|]. split.
  - intros k. destruct (sessions !! k) as [s|] eqn:Hs.
    + rewrite Hkeys by (apply Object_keys_spec; eauto). by rewrite Hs.
    + rewrite Hfar; [done|]. rewrite Object_keys_spec, Hs. by intros [? ?].
  - rewrite Hcount. unfold Object_keys. rewrite length_fmap, length_map_to_list. lia.
Qed.

(** C8. The sweep run at time [now] (idle threshold [SESSION_INTERVAL])
    finishes without an exception; afterwards a session whose lastAccess
    is strictly below [now - SESSION_INTERVAL] is gone, a session whose
    lastAccess is at or above it is still there unchanged, nothing else
    appears, and the two counts add up to the number of sessions before
    the sweep. *)
Theorem cleanupOldSessions_sweeps (now : Z) (sessions : gmap string SessionInfo) :
  exists sw,
    cleanupOldSessions now sessions = Returned sw
    /\ (forall k session, sessions !! k = Some session ->
          s_lastAccess session < now - SESSION_INTERVAL -> cache sw !! k = None)
    /\ (forall k session, sessions !! k = Some session ->
          now - SESSION_INTERVAL <= s_lastAccess session -> cache sw !! k = Some session)
    /\ (forall k, sessions !! k = None -> cache sw !! k = None)
    /\ (deleted sw + remaining sw = size sessions)%nat.
Proof.
  destruct (cleanupOldSessions_result now sessions) as (sw & Hrun & Hcache & Hcount).
  exists sw. split; [exact Hrun|]. repeat split.
  - intros k s Hs Hold. rewrite Hcache, Hs. cbn.
    apply Z.ltb_lt in Hold. by rewrite Hold.
  - intros k s Hs Hnew. rewrite Hcache, Hs. cbn.
    apply Z.ltb_ge in Hnew. by rewrite Hnew.
  - intros k Hk. by rewrite Hcache, Hk.
  - exact Hcount.
Qed.

Example cleanup_two_sessions :
  cleanupOldSessions 5000000
    (<["old" := demoSession 1000 0]> (<["new" := demoSession 3200000 4]> ∅))
  = Returned {| cache := <["new" := demoSession 3200000 4]> ∅;
                deleted := 1; remaining := 1 |}.
Proof. vm_compute. reflexivity. Qed.

(** ** The session-key loop *)

Lemma generateSessionKey_first_fresh (generate : nat -> string)
    (cache : gmap string SessionInfo) (k : nat) :
  forall (fuel drawn : nat),
    (k < fuel)%nat ->
    cache !! generate (drawn + k)%nat = None ->
    (forall j, (j < k)%nat -> is_Some (cache !! generate (drawn + j)%nat)) ->
    generateSessionKey fuel generate drawn cache
    = Some (generate (drawn + k)%nat, S (drawn + k)).
Proof.
  induction k as [|k IH]; intros fuel drawn Hfuel Hfresh Htaken.
  - destruct fuel as [|fuel]; [lia|]. cbn [generateSessionKey].
    rewrite Nat.add_0_r in *. by rewrite Hfresh.
  - destruct fuel as [|fuel]; [lia|]. cbn [generateSessionKey].
    destruct (Htaken 0%nat) as [s Hs]; [lia|]. rewrite Nat.add_0_r in Hs. rewrite Hs.
    replace (drawn + S k)%nat with (S drawn + k)%nat in * by lia.
    apply IH; [lia | done |].
    intros j Hj. replace (S drawn + j)%nat with (drawn + S j)%nat by lia.
    apply Htaken. lia.
Qed.

Lemma generateSessionKey_all_taken (generate : nat -> string)
    (cache : gmap string SessionInfo) :
  (forall i, is_Some (cache !! generate i)) ->
  forall fuel drawn, generateSessionKey fuel generate drawn cache = None.
Proof.
  intros Htaken. induction fuel as [|fuel IH]; intros drawn; [done|].
  cbn [generateSessionKey]. destruct (Htaken drawn) as [s ->]. apply IH.
Qed.

(** C6, as the code has it. The key loop has no bound: it returns the
    first value of the generator that is not a key of the cache, after as
    many draws as that takes, whatever their number. *)
Theorem generateSessionKey_returns_first_fresh (generate : nat -> string)
    (cache : gmap string SessionInfo) (k fuel : nat) :
  cache !! generate k = None ->
  (forall j, (j < k)%nat -> is_Some (cache !! generate j)) ->
  (k < fuel)%nat ->
  generateSessionKey fuel generate 0 cache = Some (generate k, S k).
Proof.
  intros Hfresh Htaken Hfuel.
  apply (generateSessionKey_first_fresh generate cache k fuel 0%nat); auto.
Qed.

Lemma generateSessionKey_returns_first_fresh_witness :
  generateSessionKey 10 (collideThenFresh 3) 0 {["k1" := demoSession 0 0]}
  = Some ("k2", 4%nat).
Proof.
  apply (generateSessionKey_returns_first_fresh
           (collideThenFresh 3) {["k1" := demoSession 0 0]} 3 10).
  - reflexivity.
  - intros j Hj. exists (demoSession 0 0).
    destruct j as [|[|[|j]]]; [reflexivity | reflexivity | reflexivity | lia].
  - lia.
Defined.

(** C6, against the claim as stated. No number bounds the draws of a run
    that ends, and a generator that only returns a cached key keeps the
    loop running for ever: no fuel makes it return. *)
Lemma generateSessionKey_unbounded :
  (~ exists bound : nat,
       forall generate cache fuel key draws,
         generateSessionKey fuel generate 0 cache = Some (key, draws) ->
         (draws <= bound)%nat)
  /\ (~ exists fuel : nat,
         is_Some (generateSessionKey fuel (fun _ => "k1") 0 {["k1" := demoSession 0 0]})).
Proof.
  split.
  - intros [bound Hbound].
    specialize (Hbound (collideThenFresh (S bound)) {["k1" := demoSession 0 0]}
                       (S (S bound)) "k2" (S (S bound))).
    assert (S (S bound) <= bound)%nat; [|lia].
    apply Hbound.
    rewrite (generateSessionKey_first_fresh _ _ (S bound) _ 0%nat).
    + cbn [Nat.add]. unfold collideThenFresh. by rewrite Nat.ltb_irrefl.
    + lia.
    + cbn [Nat.add]. unfold collideThenFresh. by rewrite Nat.ltb_irrefl.
    + intros j Hj. cbn [Nat.add]. unfold collideThenFresh.
      apply Nat.ltb_lt in Hj. rewrite Hj. by exists (demoSession 0 0).
  - intros [fuel [r Hr]].
    rewrite generateSessionKey_all_taken in Hr; [done|].
    intros _. by exists (demoSession 0 0).
Qed.

(** ** The timestamp test *)

Lemma isValidInteger_int (H : Host) (z : Z) : isValidInteger H (JNum (NumInt z)) = true.
Proof. reflexivity. Qed.

Lemma timestampTest_always (H : Host) (time : Date) : timestampTest H time = true.
Proof. reflexivity. Qed.

(** What the test would be with the method called: it tells the invalid
    date from the valid ones. *)
Lemma isNaN_valueOf_call (H : Host) (time : Date) :
  isNaN H (Date_valueOf_call time) = true <-> time = None.
Proof. destruct time; cbn; split; congruence. Qed.

(** C1, the code at a valid timecode. The timecode 0 parses to a valid
    instant, yet the timestamp test holds of every date, and both
    handlers answer 400 "Invalid timestamp" to a request that is valid
    in every field. *)
Theorem valid_timecode_is_rejected (H : Host) (now : Z) :
  dateOrInvalid H (JNum (NumInt 0)) = Some 0
  /\ (forall time, timestampTest H time = true)
  /\ tryLogEvent H now noFaults
       (logBody (JNum (NumInt 0)) (JNum (NumInt 0)) JUndefined)
       {| sessions := {["k1" := demoSession 0 0]}; db := emptyDb |}
     = ({| sessions := {["k1" := demoSession now 0]}; db := emptyDb |},
        SendText HTTP_BAD_REQUEST (InvalidTimestamp TNumber (JNum (NumInt 0))))
  /\ tryConnect H now noFaults true (fun _ => "k1") 1
       (connectBody (JNum (NumInt 0))) {| sessions := ∅; db := emptyDb |}
     = Some ({| sessions := ∅; db := emptyDb |},
             Returned (SendText HTTP_BAD_REQUEST
                         (InvalidTimestamp TNumber (JNum (NumInt 0))))).
Proof.
  split; [reflexivity|]. split; [intros; reflexivity|]. split.
  - vm_compute. reflexivity.
  - vm_compute. reflexivity.
Qed.

(** What follows for the handlers as written: a connect request is
    always answered 400 and creates no session, and a log request never
    reaches the store. *)
Lemma tryConnect_always_rejects H now faults connects generate fuel body st :
  exists text,
    tryConnect H now faults connects generate fuel body st
    = Some (st, Returned (SendText HTTP_BAD_REQUEST text)).
Proof.
  unfold tryConnect, tryConnectWith. rewrite timestampTest_always.
  repeat match goal with
         | |- context [if ?c then _ else _] => destruct c; [by eexists|]
         end.
  by eexists.
Qed.

Lemma tryLogEvent_never_writes H now faults body st :
  db (fst (tryLogEvent H now faults body st)) = db st.
Proof.
  unfold tryLogEvent, tryLogEventWith.
  destruct (negb (truthy body)); [done|].
  destruct (negb (isValidString _)); [done|].
  destruct (sessions st !! _); [|done].
  rewrite timestampTest_always.
  destruct (negb (isValidInteger _ _)); [done|].
  by destruct (_ <? _).
Qed.

(** ** Log requests on a resolved session *)

Lemma resolves_checks body st key session :
  resolves body st key session ->
  truthy body = true
  /\ isValidString (get body "sessionKey") = true
  /\ trim (asString (get body "sessionKey")) = key
  /\ sessions st !! key = Some session.
Proof.
  intros (raw & Hget & Hraw & -> & Hs).
  destruct body; try discriminate Hget.
  rewrite Hget. repeat split; [|done].
  destruct raw; [done | reflexivity].
Qed.

Lemma touch_touch now now' session : touch now' (touch now session) = touch now' session.
Proof. reflexivity. Qed.

Lemma touch_nextSequence now session :
  s_nextSequence (touch now session) = s_nextSequence session.
Proof. reflexivity. Qed.

(** C4. A log request on a resolved session whose sequence number is an
    integer below the session's [nextSequence] is answered 200 at once:
    the store is left as it was (no statement is issued) and the session
    keeps its [nextSequence]; only [lastAccess] is refreshed. Sending the
    same request again gives the same answer, again without a write. *)
Theorem duplicate_event_is_dropped (H : Host) (now : Z) (faults : nat -> bool)
    (body : JsVal) (st : Server) (key : string) (session : SessionInfo) (sequence : Z) :
  resolves body st key session ->
  get body "sequence" = JNum (NumInt sequence) ->
  sequence < s_nextSequence session ->
  let st1 := {| sessions := <[key := touch now session]> (sessions st); db := db st |} in
  tryLogEvent H now faults body st = (st1, SendEmpty 200)
  /\ s_nextSequence (touch now session) = s_nextSequence session
  /\ forall now' faults',
       tryLogEvent H now' faults' body st1
       = ({| sessions := <[key := touch now' session]> (sessions st); db := db st |},
          SendEmpty 200).
Proof.
  intros Hres Hseq Hdup st1.
  assert (Hfirst : forall now0 st0 session0,
             resolves body st0 key session0 ->
             s_nextSequence session0 = s_nextSequence session ->
             forall faults0,
             tryLogEvent H now0 faults0 body st0
             = ({| sessions := <[key := touch now0 session0]> (sessions st0); db := db st0 |},
                SendEmpty 200)).
  { intros now0 st0 session0 Hres0 Hnext faults0.
    destruct (resolves_checks _ _ _ _ Hres0) as (Hbody & Hkey & Htrim & Hfound).
    unfold tryLogEvent, tryLogEventWith.
    rewrite Hbody, Hkey, Htrim, Hfound, Hseq. cbn [negb].
    rewrite isValidInteger_int. cbn [negb asInteger].
    rewrite touch_nextSequence, Hnext.
    apply Z.ltb_lt in Hdup. by rewrite Hdup. }
  split; [by apply Hfirst|]. split; [reflexivity|].
  intros now' faults'.
  rewrite (Hfirst now' st1 (touch now session)).
  - subst st1. cbn [sessions db]. by rewrite insert_insert_eq, touch_touch.
  - destruct Hres as (raw & Hget & Hraw & Hk & Hs).
    exists raw. subst st1. cbn [sessions]. by rewrite lookup_insert_eq.
  - reflexivity.
Qed.

Lemma duplicate_event_is_dropped_witness :
  tryLogEvent demoHost 1000 noFaults
    (logBody (JNum (NumInt 1)) (JNum (NumInt 5)) JUndefined)
    {| sessions := {["k1" := demoSession 0 3]}; db := emptyDb |}
  = ({| sessions := <["k1" := demoSession 1000 3]> {["k1" := demoSession 0 3]};
        db := emptyDb |},
     SendEmpty 200).
Proof.
  assert (Hres : resolves (logBody (JNum (NumInt 1)) (JNum (NumInt 5)) JUndefined)
                   {| sessions := {["k1" := demoSession 0 3]}; db := emptyDb |}
                   "k1" (demoSession 0 3)).
  { exists "k1". split; [reflexivity|]. split; [discriminate|]. split; reflexivity. }
  assert (Hlt : 1 < s_nextSequence (demoSession 0 3)) by (cbn; lia).
  exact (proj1 (duplicate_event_is_dropped demoHost 1000 noFaults _ _ "k1"
                  (demoSession 0 3) 1 Hres eq_refl Hlt)).
Defined.

Lemma isValidString_inv v :
  isValidString v = true -> exists raw, v = JStr raw /\ raw <> "".
Proof.
  destruct v as [| | | |raw| | |]; try discriminate.
  destruct raw; [discriminate|]. intros _. eexists. split; [reflexivity | discriminate].
Qed.


(** How a log request on a resolved session ends, whatever the timestamp
    test decides. *)
Lemma tryLogEventWith_outcome H invalidTimestamp now faults body st key session :
  resolves body st key session ->
  LogOutcome faults now body st key session
    (fst (tryLogEventWith H invalidTimestamp now faults body st))
    (snd (tryLogEventWith H invalidTimestamp now faults body st)).
Proof.
  intros Hres. destruct (resolves_checks _ _ _ _ Hres) as (Hbody & Hkey & Htrim & Hfound).
  unfold tryLogEventWith. rewrite Hbody, Hkey, Htrim, Hfound. cbn [negb].
  destruct (isValidInteger H (get body "sequence")); cbn [negb];
    [|by apply NotWritten; [| |left]].
  rewrite touch_nextSequence.
  destruct (asInteger (get body "sequence") <? s_nextSequence session) eqn:Hdup.
  { apply Z.ltb_lt in Hdup. by apply NotWritten; [| |right]. }
  apply Z.ltb_ge in Hdup.
  destruct (invalidTimestamp _); [by apply NotWritten; [| |left]|].
  destruct (isValidString (get body "eventType")); cbn [negb];
    [|by apply NotWritten; [| |left]].
  unfold recordEntry. cbn [sessions db s_table s_id s_version touch].
  match goal with |- context [query faults ?q (db st)] =>
    destruct (query faults q (db st)) as [db' [res|]] eqn:Hq end.
  - eapply Written; [done | exact Hq | reflexivity | | reflexivity].
    cbn [fst sessions]. by rewrite insert_insert_eq.
  - eapply WriteFailed; [done | by eexists | reflexivity | reflexivity].
Qed.

(** C10. On a log request whose session key resolves to a cached session,
    whatever the later checks decide, the session afterwards has
    [lastAccess] set to the current time and its table, index, version
    and section as before; a request that is rejected (any status other
    than 200) leaves [nextSequence] as it was too, and [nextSequence]
    differs afterwards only when the reply is the empty 200 and the row
    was written. No other entry of the cache changes. *)
Theorem log_request_refreshes_lastAccess (H : Host) (invalidTimestamp : Date -> bool)
    (now : Z) (faults : nat -> bool) (body : JsVal) (st : Server)
    (key : string) (session : SessionInfo) :
  resolves body st key session ->
  let st' := fst (tryLogEventWith H invalidTimestamp now faults body st) in
  let reply := snd (tryLogEventWith H invalidTimestamp now faults body st) in
  exists session',
    sessions st' = <[key := session']> (sessions st)
    /\ s_lastAccess session' = now
    /\ s_table session' = s_table session
    /\ s_id session' = s_id session
    /\ s_version session' = s_version session
    /\ s_section session' = s_section session
    /\ (status reply <> 200 -> session' = touch now session)
    /\ (s_nextSequence session' <> s_nextSequence session ->
        reply = SendEmpty 200
        /\ exists row res,
             query faults (InsertRow (s_table session) row) (db st) = (db st', Some res)).
Proof.
  intros Hres st' reply.
  destruct (tryLogEventWith_outcome H invalidTimestamp now faults body st key session Hres)
    as [Hdb Hs Hreply | row res Hfresh Hq Hdata Hs Hreply | row Hfresh Hq Hs Hreply].
  - exists (touch now session). repeat split; try done.
  - exists (setNextSequence (addOne (asInteger (get body "sequence"))) (touch now session)).
    split; [exact Hs|]. do 5 (split; [reflexivity|]). split.
    + intros Hrej. subst reply. by rewrite Hreply in Hrej.
    + intros _. split; [exact Hreply|]. by exists row, res.
  - exists (touch now session). repeat split; try done.
Qed.

Lemma log_request_refreshes_lastAccess_witness :
  exists session',
    sessions (fst (tryLogEventWith demoHost (timestampTest demoHost) 1000 noFaults
                     (logBody (JStr "seven") (JNum (NumInt 5)) JUndefined)
                     {| sessions := {["k1" := demoSession 0 3]}; db := emptyDb |}))
    = <["k1" := session']> {["k1" := demoSession 0 3]}
    /\ s_lastAccess session' = 1000
    /\ session' = touch 1000 (demoSession 0 3).
Proof.
  assert (Hres : resolves (logBody (JStr "seven") (JNum (NumInt 5)) JUndefined)
                   {| sessions := {["k1" := demoSession 0 3]}; db := emptyDb |}
                   "k1" (demoSession 0 3)).
  { exists "k1". split; [reflexivity|]. split; [discriminate|]. split; reflexivity. }
  destruct (log_request_refreshes_lastAccess demoHost (timestampTest demoHost) 1000
              noFaults _ _ "k1" (demoSession 0 3) Hres)
    as (session' & Hs & Hlast & _ & _ & _ & _ & Hrej & _).
  exists session'. split; [exact Hs|]. split; [exact Hlast|].
  apply Hrej. vm_compute. discriminate.
Defined.

(** ** [nextSequence] never moves backward *)

Lemma generateSessionKey_fresh (generate : nat -> string) (cache : gmap string SessionInfo) :
  forall fuel drawn key draws,
    generateSessionKey fuel generate drawn cache = Some (key, draws) ->
    cache !! key = None.
Proof.
  induction fuel as [|fuel IH]; intros drawn key draws; [discriminate|].
  cbn [generateSessionKey].
  destruct (cache !! generate drawn) eqn:Hdraw; [apply IH|].
  intros [= <- _]. exact Hdraw.
Qed.





(** Every statement sent on the connection is appended to its trace. *)
Lemma query_issued faults q db db' res :
  query faults q db = (db', res) -> issued db' = (issued db ++ [q])%list.
Proof.
  unfold query.
  destruct (faults _ || _).
  { intros [= <- _]. by destruct q. }
  destruct (execute q (logIssued q db)) as [[db2 r2]|] eqn:Hexec.
  - intros [= <- _]. revert Hexec. unfold execute, setView.
    destruct q; cbn [logIssued issued tx view committed working];
      repeat match goal with
             | |- context [match ?x with _ => _ end] => destruct x
             end; intros [= <- _]; reflexivity.
  - intros [= <- _]. by destruct q.
Qed.

Lemma query_changes_db faults q db res : query faults q db <> (db, res).
Proof.
  intros Hq. apply query_issued in Hq.
  apply (f_equal length) in Hq. rewrite length_app in Hq. cbn in Hq. lia.
Qed.


Example addOne_rounds : addOne (2 ^ 53) = 2 ^ 53 /\ addOne (2 ^ 53 + 2) = 2 ^ 53 + 4.
Proof. split; reflexivity. Qed.

(** ** The session-start transaction *)

Section TrySteps.
Context {A B : Type}.

Lemma bind_inl (m : Try A) (k : A -> Try B) db db' b :
  bind m k db = (db', inl b) ->
  exists db1 a, m db = (db1, inl a) /\ k a db1 = (db', inl b).
Proof.
  unfold bind. destruct (m db) as [db1 [a|e]]; [|discriminate].
  intros Hk. by exists db1, a.
Qed.

Lemma bind_inr (m : Try A) (k : A -> Try B) db db' e :
  bind m k db = (db', inr e) ->
  m db = (db', inr e)
  \/ exists db1 a, m db = (db1, inl a) /\ k a db1 = (db', inr e).
Proof.
  unfold bind. destruct (m db) as [db1 [a|e1]].
  - intros Hk. right. by exists db1, a.
  - intros [= <- <-]. by left.
Qed.
End TrySteps.

Lemma await_inl q run db db' res :
  await q run db = (db', inl res) -> run db = (db', Some res).
Proof.
  unfold await. destruct (run db) as [db1 [r|]]; [|discriminate]. by intros [= <- <-].
Qed.

Lemma await_inr q run db db' e :
  await q run db = (db', inr e) -> run db = (db', None) /\ e = QueryError q.
Proof.
  unfold await. destruct (run db) as [db1 [r|]]; [discriminate|]. by intros [= <- <-].
Qed.

(** What each statement of the script does when it is accepted inside
    the transaction. *)
Lemma storedRow_session row stored :
  storedRow row = Some stored ->
  r_session stored = r_session row /\ fitsInteger (r_session row) = true.
Proof.
  unfold storedRow.
  destruct (varchar64 (r_version row)); [|discriminate].
  destruct (varchar64 (r_section row)); [|discriminate].
  destruct (varchar64 (r_eventType row)); [|discriminate].
  destruct (JSON_stringify (r_data row)); [|discriminate].
  destruct (fitsInteger (r_session row)); [|discriminate].
  destruct (fitsTimestamp (r_time row)); [|discriminate].
  by intros [= <-].
Qed.

Section AcceptedStatements.
Variable faults : nat -> bool.

Ltac run_query :=
  unfold query, execute, setView, view;
  cbn [logIssued afterFailure tx committed working issued];
  intros Hq Htx; rewrite Htx in Hq; cbn [orb] in Hq;
  destruct (faults _); cbn [orb] in Hq; [discriminate|].

Lemma begin_accepted db db' res :
  query faults BEGIN db = (db', Some res) -> tx db = TxNone ->
  committed db' = committed db /\ working db' = committed db /\ tx db' = TxActive.
Proof. run_query. by injection Hq as <- _. Qed.

Lemma exists_accepted name db db' res :
  query faults (SelectTableExists name) db = (db', Some res) -> tx db = TxActive ->
  committed db' = committed db /\ working db' = working db /\ tx db' = TxActive
  /\ res = ResExists 1 (bool_decide (is_Some (working db !! name))).
Proof. run_query. by injection Hq as <- <-. Qed.

Lemma create_accepted name db db' res :
  query faults (CreateTable name) db = (db', Some res) -> tx db = TxActive ->
  committed db' = committed db /\ working db' = <[name := []]> (working db)
  /\ tx db' = TxActive /\ working db !! name = None.
Proof.
  run_query. destruct (working db !! name); [discriminate|].
  by injection Hq as <- _.
Qed.

Lemma max_accepted name db db' res :
  query faults (SelectMaxSession name) db = (db', Some res) -> tx db = TxActive ->
  committed db' = committed db /\ working db' = working db /\ tx db' = TxActive
  /\ exists rows, working db !! name = Some rows
                  /\ res = ResMax 1 (match maxSession rows with
                                     | Some m => JNum (NumInt m)
                                     | None => JNull
                                     end).
Proof.
  run_query. destruct (working db !! name) as [rows|]; [|discriminate].
  injection Hq as <- <-. eauto 10.
Qed.

Lemma insert_accepted name row db db' res :
  query faults (InsertRow name row) db = (db', Some res) -> tx db = TxActive ->
  committed db' = committed db /\ tx db' = TxActive
  /\ fitsInteger (r_session row) = true
  /\ exists rows stored, working db !! name = Some rows
                  /\ storedRow row = Some stored
                  /\ working db' = <[name := (rows ++ [stored])%list]> (working db).
Proof.
  run_query. destruct (working db !! name) as [rows|]; [|discriminate].
  destruct (storedRow row) as [stored|] eqn:Hstored; [|discriminate].
  injection Hq as <- _. pose proof (storedRow_session _ _ Hstored) as [_ Hfits].
  eauto 10.
Qed.

Lemma commit_accepted db db' res :
  query faults COMMIT db = (db', Some res) -> tx db = TxActive ->
  committed db' = working db /\ working db' = working db /\ tx db' = TxNone.
Proof. run_query. by injection Hq as <- _. Qed.

End AcceptedStatements.

Lemma maxSession_snoc rows row :
  maxSession (rows ++ [row]) =
  match r_session row, maxSession rows with
  | Some a, Some b => Some (Z.max a b)
  | Some a, None => Some a
  | None, m => m
  end.
Proof.
  induction rows as [|r rows IH]; cbn [app maxSession].
  - by destruct (r_session row).
  - rewrite IH.
    destruct (r_session r), (r_session row), (maxSession rows); try reflexivity;
      f_equal; lia.
Qed.

Lemma begin_needs_idle faults db db' res :
  query faults BEGIN db = (db', Some res) -> tx db <> TxFailed.
Proof.
  unfold query. intros Hq Htx. rewrite Htx, orb_true_r in Hq. discriminate.
Qed.

Lemma poolConnect_inl connects db db' a :
  poolConnect connects db = (db', inl a) -> connects = true /\ db' = db.
Proof. destruct connects; [by intros [= <- _] | discriminate]. Qed.

(** The rows of table [name] after a session start that went through:
    the rows before (none when the table was missing) and one more. *)
Lemma beginSession_finish_success faults name version section time setupId
    sessionId message db db' r :
  tx db = TxActive ->
  beginSession_finish faults name version section time setupId sessionId message db
  = (db', inl r) ->
  r = {| sessionId := sessionId; message := message |}
  /\ tx db' = TxNone
  /\ exists rows row, working db !! name = Some rows
                      /\ r_session row = Some sessionId
                      /\ committed db' = <[name := (rows ++ [row])%list]> (working db).
Proof.
  intros Htx Hrun. unfold beginSession_finish in Hrun.
  apply bind_inl in Hrun as (db1 & r1 & Hins & Hrun).
  apply await_inl in Hins. unfold recordEntry in Hins.
  apply insert_accepted in Hins
    as (Hc1 & Htx1 & _ & rows & stored & Hrows & Hstored & Hw1); [|done].
  apply storedRow_session in Hstored as [Hsession _].
  apply bind_inl in Hrun as (db2 & r2 & Hcommit & Hrun).
  apply await_inl, commit_accepted in Hcommit as (Hc2 & _ & Htx2); [|done].
  injection Hrun as <- <-. split; [done|]. split; [done|].
  exists rows, stored. split; [done|]. rewrite Hc2, Hw1. by split.
Qed.

Lemma beginSession_try_success H connects faults name version section time setupId
    db db' r :
  settledTx db ->
  beginSession_try H connects faults name version section time setupId db = (db', inl r) ->
  tx db = TxNone /\ tx db' = TxNone
  /\ exists row,
       r_session row = Some (sessionId r)
       /\ match committed db !! name with
          | None =>
              sessionId r = 0
              /\ committed db' = <[name := [row]]> (committed db)
          | Some rows =>
              sessionId r = match maxSession rows with Some m => m + 1 | None => 1 end
              /\ committed db' = <[name := (rows ++ [row])%list]> (committed db)
          end.
Proof.
  intros Htx Hrun. unfold beginSession_try in Hrun.
  apply bind_inl in Hrun as (db0 & [] & Hconn & Hrun).
  apply poolConnect_inl in Hconn as [_ ->].
  apply bind_inl in Hrun as (db1 & r1 & Hbegin & Hrun).
  apply await_inl in Hbegin.
  pose proof (begin_needs_idle _ _ _ _ Hbegin) as Hidle.
  destruct Htx as [Htx | Htx]; [|done].
  apply begin_accepted in Hbegin as (Hc1 & Hw1 & Htx1); [|done].
  apply bind_inl in Hrun as (db2 & r2 & Hexists & Hrun).
  apply await_inl, exists_accepted in Hexists as (Hc2 & Hw2 & Htx2 & ->); [|done].
  rewrite Hw1 in Hrun. cbn [Z.eqb orb] in Hrun.
  destruct (committed db !! name) as [rows|] eqn:Htable; cbn [negb] in Hrun.
  - apply bind_inl in Hrun as (db3 & r3 & Hmax & Hrun).
    apply await_inl, max_accepted in Hmax as (Hc3 & Hw3 & Htx3 & rows' & Hrows' & ->);
      [|done].
    rewrite Hw2, Hw1, Htable in Hrows'. injection Hrows' as <-.
    apply beginSession_finish_success in Hrun
        as (-> & Htx4 & rows' & row & Hrows' & Hrow & Hc4); [|done].
    rewrite Hw3, Hw2, Hw1 in Hrows', Hc4. rewrite Htable in Hrows'. injection Hrows' as <-.
    split; [done|]. split; [done|]. exists row. cbn [sessionId].
    destruct (maxSession rows) as [m|]; cbn in Hrow |- *; by rewrite Hrow.
  - apply bind_inl in Hrun as (db3 & r3 & Hcreate & Hrun).
    apply await_inl in Hcreate. unfold createTable in Hcreate.
    apply create_accepted in Hcreate as (Hc3 & Hw3 & Htx3 & _); [|done].
    apply beginSession_finish_success in Hrun
        as (-> & Htx4 & rows' & row & Hrows' & Hrow & Hc4); [|done].
    rewrite Hw3, Hw2, Hw1 in Hrows', Hc4.
    rewrite lookup_insert_eq in Hrows'. injection Hrows' as <-.
    rewrite insert_insert_eq in Hc4.
    split; [done|]. split; [done|]. by exists row.
Qed.

(** A refused statement changes nothing that is committed; it leaves an
    open transaction aborted, and a refused COMMIT ends it. *)
Lemma query_refused faults q db db' :
  query faults q db = (db', None) ->
  committed db' = committed db
  /\ tx db' = match q with
              | COMMIT | ROLLBACK => TxNone
              | _ => match tx db with TxNone => TxNone | _ => TxFailed end
              end.
Proof.
  unfold query.
  destruct (faults _ || _); [intros [= <-]; by destruct q|].
  destruct (execute q (logIssued q db)) as [[db2 r2]|]; [discriminate|].
  intros [= <-]. by destruct q.
Qed.

Lemma refused_in_transaction faults q db db' :
  query faults q db = (db', None) -> tx db = TxActive ->
  committed db' = committed db /\ settledTx db'.
Proof.
  intros Hq Htx. apply query_refused in Hq as [Hc Ht]. split; [done|].
  rewrite Htx in Ht. destruct q; first [by left | by right].
Qed.

Lemma beginSession_finish_failure faults name version section time setupId
    sessionId message db db' e :
  tx db = TxActive ->
  beginSession_finish faults name version section time setupId sessionId message db
  = (db', inr e) ->
  committed db' = committed db /\ settledTx db'.
Proof.
  intros Htx Hrun. unfold beginSession_finish in Hrun.
  apply bind_inr in Hrun as [Hins | (db1 & r1 & Hins & Hrun)].
  { apply await_inr in Hins as [Hins _]. by eapply refused_in_transaction. }
  apply await_inl in Hins. unfold recordEntry in Hins.
  apply insert_accepted in Hins as (Hc1 & Htx1 & _); [|done].
  apply bind_inr in Hrun as [Hcommit | (db2 & r2 & _ & Hrun)]; [|discriminate].
  apply await_inr in Hcommit as [Hcommit _].
  apply refused_in_transaction in Hcommit as [Hc2 Ht2]; [|done].
  split; [congruence | done].
Qed.

(** A session start that fails, at whatever step, commits nothing; the
    connection is left idle or inside the aborted transaction. *)
Lemma beginSession_try_failure H connects faults name version section time setupId
    db db' e :
  settledTx db ->
  beginSession_try H connects faults name version section time setupId db = (db', inr e) ->
  committed db' = committed db /\ settledTx db'.
Proof.
  intros Htx Hrun. unfold beginSession_try in Hrun.
  apply bind_inr in Hrun as [Hconn | (db0 & [] & Hconn & Hrun)].
  { destruct connects; [discriminate|]. by injection Hconn as <- _. }
  apply poolConnect_inl in Hconn as [_ ->].
  apply bind_inr in Hrun as [Hbegin | (db1 & r1 & Hbegin & Hrun)].
  { apply await_inr in Hbegin as [Hbegin _].
    apply query_refused in Hbegin as [Hc Ht]. split; [done|].
    unfold settledTx. rewrite Ht. destruct Htx as [-> | ->]; first [by left | by right]. }
  apply await_inl in Hbegin.
  pose proof (begin_needs_idle _ _ _ _ Hbegin) as Hidle.
  destruct Htx as [Htx | Htx]; [|done].
  apply begin_accepted in Hbegin as (Hc1 & Hw1 & Htx1); [|done].
  apply bind_inr in Hrun as [Hexists | (db2 & r2 & Hexists & Hrun)].
  { apply await_inr in Hexists as [Hexists _].
    apply refused_in_transaction in Hexists as [Hc2 Ht2]; [|done].
    split; [congruence | done]. }
  apply await_inl, exists_accepted in Hexists as (Hc2 & Hw2 & Htx2 & ->); [|done].
  cbn [Z.eqb orb] in Hrun.
  destruct (bool_decide _); cbn [negb] in Hrun.
  - apply bind_inr in Hrun as [Hmax | (db3 & r3 & Hmax & Hrun)].
    { apply await_inr in Hmax as [Hmax _].
      apply refused_in_transaction in Hmax as [Hc3 Ht3]; [|done].
      split; [congruence | done]. }
    apply await_inl, max_accepted in Hmax as (Hc3 & Hw3 & Htx3 & rows' & _ & ->); [|done].
    apply beginSession_finish_failure in Hrun as [Hc4 Ht4]; [|done].
    split; [congruence | done].
  - apply bind_inr in Hrun as [Hcreate | (db3 & r3 & Hcreate & Hrun)].
    { apply await_inr in Hcreate as [Hcreate _]. unfold createTable in Hcreate.
      apply refused_in_transaction in Hcreate as [Hc3 Ht3]; [|done].
      split; [congruence | done]. }
    apply await_inl in Hcreate. unfold createTable in Hcreate.
    apply create_accepted in Hcreate as (Hc3 & Hw3 & Htx3 & _); [|done].
    apply beginSession_finish_failure in Hrun as [Hc4 Ht4]; [|done].
    split; [congruence | done].
Qed.

(** *** The statements a computation issues *)

Lemma issues_ret {A} P (a : A) : issues P (ret a).
Proof. intros db db' r [= <- _]. exists []. by rewrite app_nil_r. Qed.

Lemma issues_throw {A} P e : issues P (@throw A e).
Proof. intros db db' r [= <- _]. exists []. by rewrite app_nil_r. Qed.

Lemma issues_bind {A B} P (m : Try A) (k : A -> Try B) :
  issues P m -> (forall a, issues P (k a)) -> issues P (bind m k).
Proof.
  intros Hm Hk db db' r. unfold bind.
  destruct (m db) as [db1 [a|e]] eqn:Hrun.
  - intros Hrest. destruct (Hm _ _ _ Hrun) as (l1 & Hl1 & HP1).
    destruct (Hk a _ _ _ Hrest) as (l2 & Hl2 & HP2).
    exists (l1 ++ l2)%list. rewrite Hl2, Hl1, app_assoc. split; [done|].
    by apply Forall_app.
  - intros [= <- _]. by apply (Hm _ _ _ Hrun).
Qed.

Lemma issues_await P faults q : P q -> issues P (await q (query faults q)).
Proof.
  intros HP db db' r. unfold await.
  destruct (query faults q db) as [db1 res] eqn:Hq.
  apply query_issued in Hq.
  destruct res; intros [= <- _]; exists [q]; (split; [done|]); by apply Forall_singleton.
Qed.

(** The transaction script never issues ROLLBACK. *)
Lemma beginSession_try_issues H connects faults name version section time setupId :
  issues notRollback
    (beginSession_try H connects faults name version section time setupId).
Proof.
  assert (Hfinish : forall sid msg,
             issues notRollback
               (beginSession_finish faults name version section time setupId sid msg)).
  { intros sid msg. unfold beginSession_finish.
    apply issues_bind; [by apply issues_await|]. intros _.
    apply issues_bind; [by apply issues_await|]. intros _. apply issues_ret. }
  unfold beginSession_try.
  apply issues_bind; [destruct connects; [apply issues_ret | apply issues_throw]|].
  intros _. apply issues_bind; [by apply issues_await|].
  intros _. apply issues_bind; [by apply issues_await|].
  intros [| rowCount exists_ |]; try apply issues_throw.
  destruct (_ || _).
  - apply issues_bind; [by apply issues_await|]. intros _. apply Hfinish.
  - apply issues_bind; [by apply issues_await|].
    intros [| |]; try apply issues_throw. apply Hfinish.
Qed.

(** What [tryBeginSession] returns, by the outcome of its [try] block. *)
Lemma tryBeginSession_cases H connects faults name secret version section time setupId
    db db' out :
  tryBeginSession H connects faults name secret version section time setupId db
  = (db', out) ->
  (db' = db /\ out = Returned {| sessionId := -1; message := MsgAuthFailed |})
  \/ (exists r, beginSession_try H connects faults name version section time setupId db
                = (db', inl r) /\ out = Returned r)
  \/ (exists e, beginSession_try H connects faults name version section time setupId db
                = (db', inr e)
                /\ (out = Returned {| sessionId := -1;
                                      message := MsgSessionStartError name e |}
                    \/ exists e', out = Escaped e')).
Proof.
  unfold tryBeginSession.
  destruct (authenticate H name secret); cbn [negb]; [|intros [= <- <-]; by left].
  destruct (beginSession_try _ _ _ _ _ _ _ _ db) as [db1 [r|e]] eqn:Hrun.
  - destruct connects.
    + intros [= <- <-]. right. left. by exists r.
    + unfold beginSession_try in Hrun. apply bind_inl in Hrun as (? & ? & Hconn & _).
      discriminate.
  - intros Hout. right. right. exists e.
    destruct connects; injection Hout as <- <-; (split; [done|]); [by left | right; eauto].
Qed.

(** The condition that later session starts rely on: the connection is
    settled and the largest session index of table [name] is [n]. *)
Lemma afterFailures_keeps_max H name n db db' :
  0 <= n ->
  afterFailures H name db db' ->
  settledTx db ->
  (exists rows, committed db !! name = Some rows /\ maxSession rows = Some n) ->
  settledTx db'
  /\ exists rows, committed db' !! name = Some rows /\ maxSession rows = Some n.
Proof.
  intros Hn Hrun. induction Hrun as [db | db db1 db2 ? ? ? ? ? ? ? out Hcall Hneg _ IH];
    intros Htx Hmax; [done|].
  assert (Hstep : settledTx db1 /\ committed db1 = committed db).
  { apply tryBeginSession_cases in Hcall
      as [[-> _] | [(r & Hok & ->) | (e & Hfail & _)]].
    - done.
    - exfalso. specialize (Hneg r eq_refl).
      destruct Hmax as (rows & Hrows & Hm).
      destruct (beginSession_try_success _ _ _ _ _ _ _ _ _ _ _ Htx Hok)
        as (_ & _ & row & _ & Hcase).
      rewrite Hrows, Hm in Hcase. lia.
    - destruct (beginSession_try_failure _ _ _ _ _ _ _ _ _ _ _ Htx Hfail). done. }
  destruct Hstep as [Htx1 Hc1]. apply IH; [done|]. by rewrite Hc1.
Qed.

(** C2, as the code has it. A session start that returns a session index
    (a non-negative one) on an idle connection returns 0 when the
    client's table is absent, 1 when the table is present and holds no
    session index (an empty table), and the largest session index plus 1
    otherwise. The next session start for the same name that returns a
    session index, after any number of failed ones, returns exactly one
    more. *)
Theorem session_index_assignment (H : Host) (connects : bool) (faults : nat -> bool)
    (name secret version section : string) (time : Date) (setupId : string)
    (db db' : Db) (n : Z) (msg : Message) :
  tx db = TxNone ->
  tryBeginSession H connects faults name secret version section time setupId db
  = (db', Returned {| sessionId := n; message := msg |}) ->
  0 <= n ->
  (committed db !! name = None -> n = 0)
  /\ (forall rows, committed db !! name = Some rows -> maxSession rows = None -> n = 1)
  /\ (forall rows m, committed db !! name = Some rows -> maxSession rows = Some m ->
                     n = m + 1)
  /\ (forall db1 connects' faults' secret' version' section' time' setupId' db2 n' msg',
        afterFailures H name db' db1 ->
        tryBeginSession H connects' faults' name secret' version' section' time' setupId'
                        db1
        = (db2, Returned {| sessionId := n'; message := msg' |}) ->
        0 <= n' ->
        n' = n + 1).
Proof.
  intros Htx Hcall Hn.
  apply tryBeginSession_cases in Hcall
    as [[_ [= -> _]] | [(r & Hok & [= <-]) | (e & _ & [[= -> _] | [e' [=]]])]]; try lia.
  destruct (beginSession_try_success _ _ _ _ _ _ _ _ _ _ _ (or_introl Htx) Hok)
    as (_ & Htx' & row & Hrow & Hcase).
  cbn [sessionId] in *.
  assert (Hafter : exists rows, committed db' !! name = Some rows
                                /\ maxSession rows = Some n).
  { destruct (committed db !! name) as [rows|]; destruct Hcase as [Hidx ->];
      rewrite lookup_insert_eq; eexists; (split; [reflexivity|]).
    - rewrite maxSession_snoc, Hrow. destruct (maxSession rows); f_equal; lia.
    - cbn. by rewrite Hrow. }
  split; [|split; [|split]].
  - intros Hnone. rewrite Hnone in Hcase. by destruct Hcase.
  - intros rows Hrows Hmax. rewrite Hrows, Hmax in Hcase. by destruct Hcase.
  - intros rows m Hrows Hmax. rewrite Hrows, Hmax in Hcase. by destruct Hcase.
  - intros db1 connects' faults' secret' version' section' time' setupId' db2 n' msg'
           Hfails Hcall' Hn'.
    destruct (afterFailures_keeps_max H name n db' db1 Hn Hfails (or_introl Htx') Hafter)
      as (Htx1 & rows1 & Hrows1 & Hmax1).
    apply tryBeginSession_cases in Hcall'
      as [[_ [= -> _]] | [(r' & Hok' & [= <-]) | (e & _ & [[= -> _] | [e' [=]]])]]; try lia.
    destruct (beginSession_try_success _ _ _ _ _ _ _ _ _ _ _ Htx1 Hok')
      as (_ & _ & row' & _ & Hcase').
    rewrite Hrows1, Hmax1 in Hcase'. by destruct Hcase'.
Qed.

Lemma session_index_assignment_witness :
  let first :=
    tryBeginSession demoHost true noFaults "teama" "s3cret" "1.0" "Menu" (Some 0) "?"
                    emptyDb in
  let second :=
    tryBeginSession demoHost true noFaults "teama" "s3cret" "1.1" "Menu" (Some 9) "?"
                    (fst first) in
  snd first = Returned {| sessionId := 0; message := MsgCreated "teama" 0 |}
  /\ snd second = Returned {| sessionId := 0 + 1; message := MsgAuthenticated "teama" 1 |}.
Proof.
  intros first second.
  assert (Hfirst : first = (fst first,
                            Returned {| sessionId := 0; message := MsgCreated "teama" 0 |})).
  { vm_compute. reflexivity. }
  assert (Hsecond : second = (fst second,
                              Returned {| sessionId := 1;
                                          message := MsgAuthenticated "teama" 1 |})).
  { vm_compute. reflexivity. }
  destruct (session_index_assignment demoHost true noFaults "teama" "s3cret" "1.0" "Menu"
              (Some 0) "?" emptyDb (fst first) 0 (MsgCreated "teama" 0)
              eq_refl Hfirst (Z.le_refl 0)) as (_ & _ & _ & Hnext).
  rewrite <- (Hnext (fst first) true noFaults "s3cret" "1.1" "Menu" (Some 9) "?"
                    (fst second) 1 (MsgAuthenticated "teama" 1)
                    (NoAttempt demoHost "teama" (fst first)) Hsecond ltac:(lia)).
  split; [by rewrite Hfirst | by rewrite Hsecond].
Defined.

(** C2, against the claim as stated. The table of [teama] is present and
    empty; the session start goes through and is given index 1, where
    the claim asks for 0. *)
Lemma empty_table_gets_index_1 :
  committed (teamaDb []) !! "teama" = Some []
  /\ snd (tryBeginSession demoHost true noFaults "teama" "s3cret" "1.0" "Menu" (Some 0)
                          "?" (teamaDb []))
     = Returned {| sessionId := 1; message := MsgAuthenticated "teama" 1 |}
  /\ committed (fst (tryBeginSession demoHost true noFaults "teama" "s3cret" "1.0" "Menu"
                                     (Some 0) "?" (teamaDb []))) !! "teama"
     = Some [{| r_session := Some 1; r_version := "1.0"; r_section := "Menu";
                r_eventType := "SessionStart"; r_time := Some 0;
                r_data := JObj [("setup", JStr "?")] |}].
Proof. split; [reflexivity|]. split; vm_compute; reflexivity. Qed.

(** ** A session start that fails *)

(** No statement [tryBeginSession] issues is a ROLLBACK, whatever
    happens. *)
Lemma tryBeginSession_never_rolls_back H connects faults name secret version section
    time setupId db db' out :
  tryBeginSession H connects faults name secret version section time setupId db
  = (db', out) ->
  exists l, issued db' = (issued db ++ l)%list /\ Forall notRollback l.
Proof.
  unfold tryBeginSession.
  destruct (authenticate H name secret); cbn [negb].
  - destruct (beginSession_try _ _ _ _ _ _ _ _ db) as [db1 outcome] eqn:Hrun.
    apply beginSession_try_issues in Hrun.
    destruct connects; by intros [= <- _].
  - intros [= <- _]. exists []. by rewrite app_nil_r.
Qed.

(** With the client connected, a failure of the script is returned as a
    result with session index -1 and the error in its message, and
    nothing of the script is committed. *)
Lemma tryBeginSession_failure H faults name secret version section time setupId
    db db' e :
  settledTx db ->
  authenticate H name secret = true ->
  beginSession_try H true faults name version section time setupId db = (db', inr e) ->
  tryBeginSession H true faults name secret version section time setupId db
  = (db', Returned {| sessionId := -1; message := MsgSessionStartError name e |})
  /\ committed db' = committed db.
Proof.
  intros Htx Hauth Hrun. unfold tryBeginSession. rewrite Hauth, Hrun. cbn [negb].
  split; [reflexivity|]. by destruct (beginSession_try_failure _ _ _ _ _ _ _ _ _ _ _ Htx Hrun).
Qed.

(** The initialization routine, for comparison: its [catch] block ends
    the failed transaction with a ROLLBACK. *)
Example initialize_rolls_back :
  initialize true (fun n => (n =? 1)%nat) true (teamaDb [])
  = ({| committed := {["teama" := []]}; working := {["teama" := []]}; tx := TxNone;
        issued := [BEGIN; DropTables ["testing"; "gregdoug"]; ROLLBACK] |},
     Escaped (QueryError (DropTables ["testing"; "gregdoug"]))).
Proof. vm_compute. reflexivity. Qed.

(** C3, the code when the SessionStart insert fails on a new table (the
    fourth statement of the script). The failure is returned as a result
    with index -1 and nothing is committed; but the statements issued
    end with the failed INSERT, no ROLLBACK follows, and the connection
    goes back to the pool inside the aborted transaction, so that the
    next session start fails at BEGIN although the store has no fault
    then. *)
Theorem failed_session_start_is_not_rolled_back :
  let startRow :=
    {| r_session := Some 0; r_version := "1.0"; r_section := "Menu";
       r_eventType := "SessionStart"; r_time := Some 0;
       r_data := JObj [("setup", JStr "?")] |} in
  let failed :=
    tryBeginSession demoHost true (fun n => (n =? 3)%nat) "teama" "s3cret" "1.0" "Menu"
                    (Some 0) "?" emptyDb in
  snd failed
  = Returned {| sessionId := -1;
                message := MsgSessionStartError "teama"
                             (QueryError (InsertRow "teama" startRow)) |}
  /\ committed (fst failed) = ∅
  /\ issued (fst failed)
     = [BEGIN; SelectTableExists "teama"; CreateTable "teama"; InsertRow "teama" startRow]
  /\ existsb is_rollback (issued (fst failed)) = false
  /\ tx (fst failed) = TxFailed
  /\ snd (tryBeginSession demoHost true noFaults "teama" "s3cret" "1.0" "Menu" (Some 1)
                          "?" (fst failed))
     = Returned {| sessionId := -1;
                   message := MsgSessionStartError "teama" (QueryError BEGIN) |}.
Proof. repeat split; vm_compute; reflexivity. Qed.

(** ** The payload of a log event *)

(** The shapes [parseData] tells apart. *)
Lemma parseData_shapes (d : JsVal) :
  match d with
  | JNum _ | JStr _ | JBool _ => parseData d = JObj [("value", d)]
  | JArr _ => parseData d = JObj [("list", d)]
  | JObj _ => parseData d = d
  | JUndefined | JFun _ => parseData d = JObj []
  | JNull => parseData d = JNull
  end.
Proof. by destruct d. Qed.

(** The row a log request writes carries [parseData] of the request's
    [data], whatever the timestamp test decides. *)
Lemma written_payload H invalidTimestamp now faults body st key session row res :
  resolves body st key session ->
  query faults (InsertRow (s_table session) row) (db st)
  = (db (fst (tryLogEventWith H invalidTimestamp now faults body st)), Some res) ->
  r_data row = parseData (get body "data").
Proof.
  intros Hres Hq.
  destruct (tryLogEventWith_outcome H invalidTimestamp now faults body st key session Hres)
    as [Hdb _ _ | row' res' _ Hq' Hdata _ _ | row' _ Hq' _ _].
  - rewrite Hdb in Hq. by apply query_changes_db in Hq.
  - pose proof (query_issued _ _ _ _ _ Hq) as Hi.
    pose proof (query_issued _ _ _ _ _ Hq') as Hi'.
    rewrite Hi in Hi'. apply app_inj_tail in Hi' as [_ [= <-]]. exact Hdata.
  - destruct Hq' as (db1 & Hq' & Hdb).
    pose proof (query_issued _ _ _ _ _ Hq) as Hi.
    pose proof (query_issued _ _ _ _ _ Hq') as Hi'.
    rewrite Hdb in Hi. cbn [poolDiscard issued] in Hi.
    rewrite Hi in Hi'. apply app_inj_tail in Hi' as [_ [= <-]]. congruence.
Qed.

(** * Further properties of the code *)

(** ** Data validation *)

Lemma isValidInteger_inv (H : Host) (v : JsVal) :
  isValidInteger H v = true -> exists z, v = JNum (NumInt z).
Proof.
  unfold isValidInteger. destruct v as [| | |[]| | | |]; cbn [Number_isInteger];
    rewrite ?andb_false_r; try discriminate. eauto.
Qed.

(** X1. [isValidInteger] holds exactly of the number values that are
    integers: numeric strings, [null], booleans and fractions are all
    refused, whatever the host's conversions are. *)
Theorem isValidInteger_iff (H : Host) (v : JsVal) :
  isValidInteger H v = true <-> exists z, v = JNum (NumInt z).
Proof. split; [apply isValidInteger_inv | intros [z ->]; reflexivity]. Qed.

(** [isValidString] holds exactly of the non-empty strings; a string
    of white space only passes it. *)
Theorem isValidString_iff (v : JsVal) :
  isValidString v = true <-> exists s, v = JStr s /\ s <> "".
Proof.
  split; [apply isValidString_inv|].
  intros (s & -> & Hs). destruct s; [done | reflexivity].
Qed.

(** X2. [dateOrInvalid] yields a valid date in two cases only: an integer
    within 8.64e15 milliseconds of the epoch, which becomes that instant,
    and a non-empty string that [Date.parse] accepts. [null], booleans,
    fractions, arrays and objects give the invalid date, although
    [new Date] alone would convert some of them. *)
Theorem dateOrInvalid_valid_iff (H : Host) (timecode : JsVal) (t : Z) :
  dateOrInvalid H timecode = Some t
  <-> (timecode = JNum (NumInt t) /\ Z.abs t <= 8640000000000000)
      \/ (exists s, timecode = JStr s /\ s <> "" /\ Date_parse H s = Some t).
Proof.
  unfold dateOrInvalid. split.
  - destruct (isValidInteger H timecode) eqn:Hi.
    + apply isValidInteger_inv in Hi as [z ->]. cbn [orb new_Date ToNumber TimeClip].
      destruct (Z.abs z <=? _) eqn:Hz; [|discriminate].
      intros [= ->]. left. split; [done|]. by apply Z.leb_le.
    + cbn [orb]. destruct (isValidString timecode) eqn:Hs; [|discriminate].
      apply isValidString_inv in Hs as (s & -> & Hs). cbn [new_Date].
      intros Hp. right. by exists s.
  - intros [[-> Hz] | (s & -> & Hs & Hp)].
    + cbn. apply Z.leb_le in Hz. by rewrite Hz.
    + destruct s; [done|]. unfold isValidInteger. cbn [Number_isInteger].
      rewrite andb_false_r. exact Hp.
Qed.

Lemma trimStart_headClean s : headClean (trimStart s).
Proof.
  induction s as [|c rest IH]; cbn [trimStart]; [done|].
  destruct (isWhiteSpace c) eqn:Hc; [exact IH | exact Hc].
Qed.

Lemma headClean_trimStart s : headClean s -> trimStart s = s.
Proof. destruct s as [|c rest]; cbn; [done|]. by intros ->. Qed.

Lemma trimEnd_headClean s : headClean s -> headClean (trimEnd s).
Proof.
  destruct s as [|c rest]; cbn [trimEnd headClean]; [done|]. intros Hc.
  destruct (trimEnd rest); cbn; by rewrite ?Hc.
Qed.

Lemma trimEnd_idempotent s : trimEnd (trimEnd s) = trimEnd s.
Proof.
  induction s as [|c rest IH]; cbn [trimEnd]; [done|].
  destruct (trimEnd rest) as [|d kept] eqn:Hrest.
  - destruct (isWhiteSpace c) eqn:Hc; cbn [trimEnd]; by rewrite ?Hc.
  - cbn [trimEnd]. cbn [trimEnd] in IH. by rewrite IH.
Qed.

Lemma trim_headClean s : headClean (trim s).
Proof. apply trimEnd_headClean, trimStart_headClean. Qed.

Lemma trim_idempotent s : trim (trim s) = trim s.
Proof.
  unfold trim at 1. rewrite headClean_trimStart by apply trim_headClean.
  unfold trim. apply trimEnd_idempotent.
Qed.

(** X3. [textOrPlaceholder] never returns the empty string; its result
    has no white space at either end and is a fixed point of the
    function; it is the placeholder ['?'] for everything but a string
    with a character that is not white space, and the trimmed string for
    such a one. *)
Theorem textOrPlaceholder_spec (text : JsVal) :
  textOrPlaceholder text <> ""
  /\ trim (textOrPlaceholder text) = textOrPlaceholder text
  /\ textOrPlaceholder (JStr (textOrPlaceholder text)) = textOrPlaceholder text
  /\ ((textOrPlaceholder text = "?"
       /\ forall s, text = JStr s -> trim s = "" \/ trim s = "?")
      \/ exists s, text = JStr s /\ trim s <> "" /\ textOrPlaceholder text = trim s).
Proof.
  assert (Hstr : forall s, s <> "" -> trim s <> "" ->
                           textOrPlaceholder (JStr s) = trim s).
  { intros s Hs Ht. unfold textOrPlaceholder.
    destruct s; [done|]. cbn [isValidString looseNeUndefined typeof truthy
                              instanceofString andb orb].
    by destruct (trim _). }
  assert (Hblank : forall s, trim s = "" -> textOrPlaceholder (JStr s) = "?").
  { intros s Ht. unfold textOrPlaceholder. rewrite Ht. by destruct (isValidString _). }
  assert (Hcases : textOrPlaceholder text = "?"
                   /\ (forall s, text = JStr s -> trim s = "" \/ trim s = "?")
                   \/ exists s, text = JStr s /\ trim s <> ""
                                /\ textOrPlaceholder text = trim s).
  { destruct text as [| | | |s| | |];
      try (left; split; [reflexivity | intros ? [=]]).
    destruct (trim s) as [|c k] eqn:Ht.
    - left. split; [by apply Hblank|]. intros ? [= <-]. by left.
    - right. exists s. split; [done|]. rewrite Ht. split; [done|].
      rewrite <- Ht. apply Hstr; [|by rewrite Ht]. by intros ->. }
  destruct Hcases as [[Hq Hs] | (s & -> & Ht & Heq)].
  - rewrite Hq. repeat split; try done. by left.
  - rewrite Heq. split; [done|]. split; [apply trim_idempotent|]. split.
    + rewrite Hstr; rewrite ?trim_idempotent; done.
    + right. by exists s.
Qed.

(** ** The sanitizer, further *)

Lemma allSettled_chars s :
  allSettled s = true ->
  Forall (fun c => lowerChar c = c /\ isSpaceOrHyphen c = false /\ isPunct c = false)
         (chars s).
Proof.
  induction s as [|c rest IH]; cbn [allSettled chars]; [constructor|].
  intros Hs. apply andb_prop in Hs as [Hc Hrest].
  constructor; [by apply settled_fixed | by apply IH].
Qed.

(** X5. A table name holds no white space, no hyphen, none of the
    characters . , ' ; : and no upper-case letter (for a name of Latin-1
    code units, the strings of this development). Nothing else is
    removed: a name the validator accepts starts with a letter a-z, the
    rest is unconstrained. *)
Theorem toTableName_characters (x : string) :
  Forall (fun c => lowerChar c = c /\ isSpaceOrHyphen c = false /\ isPunct c = false)
         (chars (toTableName x))
  /\ (isValidIdentifier (toTableName x) = true ->
      exists first rest, toTableName x = String first rest
                         /\ (97 <= code first <= 122)%N).
Proof.
  split; [apply allSettled_chars, toTableName_settled|].
  destruct (toTableName x) as [|first rest]; cbn [isValidIdentifier]; [discriminate|].
  intros Hv. apply andb_prop in Hv as [Hlo Hhi].
  apply N.leb_le in Hlo, Hhi. exists first, rest. split; [done|]. split; assumption.
Qed.

(** ** The session-key loop, read backward *)

Lemma generateSessionKey_inv_from (generate : nat -> string)
    (cache : gmap string SessionInfo) :
  forall fuel drawn key draws,
    generateSessionKey fuel generate drawn cache = Some (key, draws) ->
    (drawn < draws <= drawn + fuel)%nat
    /\ key = generate (draws - 1)%nat
    /\ cache !! key = None
    /\ forall j, (drawn <= j < draws - 1)%nat -> is_Some (cache !! generate j).
Proof.
  induction fuel as [|fuel IH]; intros drawn key draws; [discriminate|].
  cbn [generateSessionKey].
  destruct (cache !! generate drawn) as [s|] eqn:Hdraw.
  - intros Hrun. destruct (IH _ _ _ Hrun) as (Hd & Hk & Hf & Hprev).
    split; [lia|]. split; [done|]. split; [done|].
    intros j Hj. destruct (decide (j = drawn)) as [->|Hne]; [by exists s|].
    apply Hprev. lia.
  - intros [= <- <-]. replace (S drawn - 1)%nat with drawn by lia.
    split; [lia|]. split; [done|]. split; [done|]. intros j Hj. lia.
Qed.

(** X6. When the key loop returns, the key is the last value drawn, it is
    not a key of the cache, every value drawn before it was one, and at
    least one value was drawn. *)
Theorem generateSessionKey_inv (generate : nat -> string)
    (cache : gmap string SessionInfo) (fuel : nat) (key : string) (draws : nat) :
  generateSessionKey fuel generate 0 cache = Some (key, draws) ->
  (1 <= draws <= fuel)%nat
  /\ key = generate (draws - 1)%nat
  /\ cache !! key = None
  /\ forall j, (j < draws - 1)%nat -> is_Some (cache !! generate j).
Proof.
  intros Hrun. destruct (generateSessionKey_inv_from _ _ _ _ _ _ Hrun)
    as (Hd & Hk & Hf & Hprev).
  split; [lia|]. split; [done|]. split; [done|]. intros j Hj. apply Hprev. lia.
Qed.

Lemma generateSessionKey_inv_witness :
  "k2" = collideThenFresh 3 (4 - 1)%nat
  /\ ({["k1" := demoSession 0 0]} : gmap string SessionInfo) !! "k2" = None.
Proof.
  assert (Hrun : generateSessionKey 10 (collideThenFresh 3) 0 {["k1" := demoSession 0 0]}
                 = Some ("k2", 4%nat)) by (vm_compute; reflexivity).
  destruct (generateSessionKey_inv _ _ _ _ _ Hrun) as (_ & Hk & Hf & _).
  split; [exact Hk | exact Hf].
Defined.

(** ** Cross-origin requests *)

Lemma prefix_app p r : String.prefix p (p ++ r) = true.
Proof.
  induction p as [|c p IH]; simpl; [by destruct r|].
  destruct (ascii_dec c c); [exact IH | done].
Qed.

Lemma prefix_inv p s : String.prefix p s = true -> exists r, s = (p ++ r)%string.
Proof.
  revert s. induction p as [|c p IH]; intros s.
  - intros _. by exists s.
  - destruct s as [|d s]; simpl; [discriminate|].
    destruct (ascii_dec c d) as [->|]; [|discriminate].
    intros Hp. destruct (IH _ Hp) as [r ->]. by exists r.
Qed.

Lemma indexOfFrom_unfold sub s from :
  indexOfFrom sub s from
  = if String.prefix sub s then from
    else match s with
         | EmptyString => -1
         | String _ rest => indexOfFrom sub rest (from + 1)
         end.
Proof. by destruct s. Qed.

Lemma indexOfFrom_range sub s from :
  indexOfFrom sub s from = -1 \/ from <= indexOfFrom sub s from.
Proof.
  revert from. induction s as [|c rest IH]; intros from; cbn [indexOfFrom].
  - destruct (String.prefix sub ""); [right; lia | by left].
  - destruct (String.prefix sub (String c rest)); [right; lia|].
    destruct (IH (from + 1)) as [->| Hle]; [by left | right; lia].
Qed.

Lemma indexOfFrom_found sub s from :
  0 <= from -> (indexOfFrom sub s from <> -1 <-> occursIn sub s).
Proof.
  intros Hfrom. split.
  - revert from Hfrom. induction s as [|c rest IH]; intros from Hfrom;
      cbn [indexOfFrom].
    + destruct (String.prefix sub "") eqn:Hp; [|done].
      intros _. apply prefix_inv in Hp as [r Hr]. by exists "", r.
    + destruct (String.prefix sub (String c rest)) eqn:Hp.
      * intros _. apply prefix_inv in Hp as [r Hr]. by exists "", r.
      * intros Hfound. destruct (IH (from + 1)) as (pre & post & ->); [lia | done |].
        by exists (String c pre), post.
  - intros (pre & post & ->). revert from Hfrom.
    induction pre as [|c pre IH]; intros from Hfrom.
    + change ("" ++ sub ++ post)%string with (sub ++ post)%string.
      rewrite indexOfFrom_unfold, prefix_app. lia.
    + change (String c pre ++ sub ++ post)%string
        with (String c (pre ++ sub ++ post))%string.
      cbn [indexOfFrom].
      destruct (String.prefix sub _); [lia|]. apply IH. lia.
Qed.

(** X7. The origin test lets through, and only lets through: a request
    without origin or with an empty one, an origin in which [itch.io/] or
    [ssl.hwcdn.net] occurs at any place, and an origin that begins with
    [http://localhost] or [chrome-extension://], whatever follows. *)
Theorem corsOrigin_allows (origin : option string) :
  corsOrigin origin = true
  <-> origin = None \/ origin = Some ""
      \/ exists o, origin = Some o
                   /\ (occursIn "itch.io/" o
                       \/ occursIn "ssl.hwcdn.net" o
                       \/ (exists rest, o = ("http://localhost" ++ rest)%string)
                       \/ (exists rest, o = ("chrome-extension://" ++ rest)%string)).
Proof.
  destruct origin as [o|]; cbn [corsOrigin]; [|split; [by left | done]].
  unfold indexOf, startsWith.
  pose proof (indexOfFrom_found "itch.io/" o 0 (Z.le_refl 0)) as Hitch.
  pose proof (indexOfFrom_found "ssl.hwcdn.net" o 0 (Z.le_refl 0)) as Hcdn.
  split.
  - intros Hallow. right.
    destruct o as [|c o']; [by left|]. right. eexists. split; [reflexivity|].
    cbn [truthy negb orb] in Hallow.
    apply orb_prop in Hallow as [Hallow | Hchrome];
      [|right; right; right; by apply prefix_inv].
    apply orb_prop in Hallow as [Hallow | Hlocal];
      [|right; right; left; by apply prefix_inv].
    apply orb_prop in Hallow as [Hi | Hc].
    + left. apply Hitch. apply negb_true_iff, Z.eqb_neq in Hi. exact Hi.
    + right. left. apply Hcdn. apply negb_true_iff, Z.eqb_neq in Hc. exact Hc.
  - intros [[=] | [[= ->] | (o' & [= <-] & Hcase)]]; [reflexivity|].
    destruct Hcase as [Hi | [Hc | [[rest ->] | [rest ->]]]].
    + apply Hitch, Z.eqb_neq in Hi. rewrite Hi. cbn [negb]. by rewrite orb_true_r.
    + apply Hcdn, Z.eqb_neq in Hc. rewrite Hc. cbn [negb]. by rewrite !orb_true_r.
    + rewrite (prefix_app "http://localhost" rest). by rewrite !orb_true_r.
    + rewrite (prefix_app "chrome-extension://" rest). by rewrite !orb_true_r.
Qed.

(** ** The session start, further *)

(** X8. Whatever the credentials, the store's faults and the state of the
    connection, the statements [tryBeginSession] issues are appended to
    those issued before and none of them is a ROLLBACK. *)
Theorem tryBeginSession_issues_no_rollback (H : Host) (connects : bool)
    (faults : nat -> bool) (name secret version section : string) (time : Date)
    (setupId : string) (db : Db) :
  exists l,
    issued (fst (tryBeginSession H connects faults name secret version section time
                                 setupId db))
    = (issued db ++ l)%list
    /\ Forall notRollback l.
Proof.
  destruct (tryBeginSession H connects faults name secret version section time setupId db)
    as [db' out] eqn:Hrun.
  exact (tryBeginSession_never_rolls_back _ _ _ _ _ _ _ _ _ _ _ _ Hrun).
Qed.

(** X9. When [tryBeginSession] returns a result whose message is the
    session-start error, the index is -1, the committed tables are the
    ones from before the call, and the connection is left idle or inside
    the aborted transaction. *)
Theorem tryBeginSession_error_commits_nothing (H : Host) (connects : bool)
    (faults : nat -> bool) (name secret version section : string) (time : Date)
    (setupId : string) (db db' : Db) (sid : Z) (e : Exn) :
  settledTx db ->
  tryBeginSession H connects faults name secret version section time setupId db
  = (db', Returned {| sessionId := sid; message := MsgSessionStartError name e |}) ->
  sid = -1 /\ committed db' = committed db /\ settledTx db'.
Proof.
  intros Htx Hrun.
  apply tryBeginSession_cases in Hrun
      as [[_ [=]] | [(r & Hok & [= <-]) | (e' & Hfail & [[= -> <-] | [e'' [=]]])]].
  - exfalso. revert Hok. unfold beginSession_try.
    intros Hok. apply bind_inl in Hok as (? & ? & _ & Hok).
    apply bind_inl in Hok as (? & ? & _ & Hok).
    apply bind_inl in Hok as (? & tableResult & _ & Hok).
    destruct tableResult as [| rowCount exists_ |]; try discriminate.
    destruct (_ || _).
    + apply bind_inl in Hok as (? & ? & _ & Hok).
      unfold beginSession_finish in Hok.
      apply bind_inl in Hok as (? & ? & _ & Hok).
      apply bind_inl in Hok as (? & ? & _ & Hok). discriminate.
    + apply bind_inl in Hok as (? & sessionResult & _ & Hok).
      destruct sessionResult; try discriminate.
      unfold beginSession_finish in Hok.
      apply bind_inl in Hok as (? & ? & _ & Hok).
      apply bind_inl in Hok as (? & ? & _ & Hok). discriminate.
  - split; [done|]. by eapply beginSession_try_failure.
Qed.

Lemma tryBeginSession_error_commits_nothing_witness :
  committed (fst (tryBeginSession demoHost true (fun n => (n =? 3)%nat) "teama" "s3cret"
                                  "1.0" "Menu" (Some 0) "?" emptyDb))
  = committed emptyDb.
Proof.
  assert (Hrun : tryBeginSession demoHost true (fun n => (n =? 3)%nat) "teama" "s3cret"
                                 "1.0" "Menu" (Some 0) "?" emptyDb
                 = (fst (tryBeginSession demoHost true (fun n => (n =? 3)%nat) "teama"
                                         "s3cret" "1.0" "Menu" (Some 0) "?" emptyDb),
                    Returned
                      {| sessionId := -1;
                         message :=
                           MsgSessionStartError "teama"
                             (QueryError
                                (InsertRow "teama"
                                   {| r_session := Some 0; r_version := "1.0";
                                      r_section := "Menu"; r_eventType := "SessionStart";
                                      r_time := Some 0;
                                      r_data := JObj [("setup", JStr "?")] |})) |})).
  { vm_compute. reflexivity. }
  exact (proj1 (proj2 (tryBeginSession_error_commits_nothing demoHost true _ _ _ _ _ _ _
                         emptyDb _ _ _ (or_introl eq_refl) Hrun))).
Defined.

(** X10. With valid credentials, when [pool.connect] fails the call does
    not return: [client] is still undefined in the [finally] block, the
    TypeError of [client.release()] replaces the error result, and the
    connection is untouched. *)
Theorem tryBeginSession_connect_failure_escapes (H : Host) (faults : nat -> bool)
    (name secret version section : string) (time : Date) (setupId : string) (db : Db) :
  authenticate H name secret = true ->
  tryBeginSession H false faults name secret version section time setupId db
  = (db, Escaped (TypeError "client.release")).
Proof. intros Hauth. unfold tryBeginSession. by rewrite Hauth. Qed.

Lemma tryBeginSession_connect_failure_escapes_witness :
  tryBeginSession demoHost false noFaults "teama" "s3cret" "1.0" "Menu" (Some 0) "?"
                  emptyDb
  = (emptyDb, Escaped (TypeError "client.release")).
Proof.
  apply (tryBeginSession_connect_failure_escapes demoHost noFaults "teama" "s3cret").
  vm_compute. reflexivity.
Defined.

Section Quiet.
Variable faults : nat -> bool.

Lemma query_quiet q db :
  quietFrom faults db ->
  query faults q db = query noFaults q db /\ quietFrom faults (fst (query faults q db)).
Proof.
  intros Hquiet. split.
  - unfold query, noFaults. by rewrite (Hquiet (length (issued db))).
  - intros n Hn. apply Hquiet.
    destruct (query faults q db) as [db' res] eqn:Hq.
    apply query_issued in Hq. cbn [fst] in Hn. rewrite Hq, length_app in Hn. lia.
Qed.

Lemma quietEq_ret {A} (a : A) : quietEq faults (ret a) (ret a).
Proof. by intros db Hquiet. Qed.

Lemma quietEq_throw {A} (e : Exn) : quietEq faults (throw (A := A) e) (throw e).
Proof. by intros db Hquiet. Qed.

Lemma quietEq_bind {A B} (m m' : Try A) (k k' : A -> Try B) :
  quietEq faults m m' -> (forall a, quietEq faults (k a) (k' a)) ->
  quietEq faults (bind m k) (bind m' k').
Proof.
  intros Hm Hk db Hquiet. unfold bind. destruct (Hm db Hquiet) as [Heq Hq1].
  rewrite <- Heq. destruct (m db) as [db1 [a|e]]; [|done].
  by apply Hk.
Qed.

Lemma quietEq_await q stmt :
  quietEq faults (await q (query faults stmt)) (await q (query noFaults stmt)).
Proof.
  intros db Hquiet. unfold await. destruct (query_quiet stmt db Hquiet) as [Heq Hq1].
  rewrite <- Heq. by destruct (query faults stmt db) as [db1 [res|]].
Qed.

Lemma beginSession_finish_quiet name version section time setupId sessionId message :
  quietEq faults
    (beginSession_finish faults name version section time setupId sessionId message)
    (beginSession_finish noFaults name version section time setupId sessionId message).
Proof.
  unfold beginSession_finish, awaitQuery, recordEntry.
  apply quietEq_bind; [apply quietEq_await|]. intros _.
  apply quietEq_bind; [apply quietEq_await|]. intros _. apply quietEq_ret.
Qed.

Lemma beginSession_try_quiet H connects name version section time setupId :
  quietEq faults
    (beginSession_try H connects faults name version section time setupId)
    (beginSession_try H connects noFaults name version section time setupId).
Proof.
  unfold beginSession_try, awaitQuery, createTable, poolConnect.
  apply quietEq_bind.
  { destruct connects; [apply quietEq_ret | apply quietEq_throw]. }
  intros _. apply quietEq_bind; [apply quietEq_await|]. intros _.
  apply quietEq_bind; [apply quietEq_await|]. intros [|rowCount exists_|];
    try apply quietEq_throw.
  destruct (_ || _).
  - apply quietEq_bind; [apply quietEq_await|]. intros _.
    apply beginSession_finish_quiet.
  - apply quietEq_bind; [apply quietEq_await|]. intros [| |rowCount' max];
      try apply quietEq_throw.
    apply beginSession_finish_quiet.
Qed.

(** In a store that meets no fault a session start runs as it does
    without the fault oracle. *)
Lemma tryBeginSession_quiet H connects name secret version section time setupId db :
  quietFrom faults db ->
  tryBeginSession H connects faults name secret version section time setupId db
  = tryBeginSession H connects noFaults name secret version section time setupId db.
Proof.
  intros Hquiet. unfold tryBeginSession.
  destruct (negb (authenticate H name secret)); [done|].
  by destruct (beginSession_try_quiet H connects name version section time setupId
                 db Hquiet) as [-> _].
Qed.

End Quiet.

(** X11. With valid credentials, an idle connection, a store that meets
    no fault from now on (no statement fails for a reason outside the
    schema, such as a lost link or a statement text that is not
    well-formed for the table name) and a SessionStart row that fits the
    columns of the table (version and section of at most 64 characters,
    or cut to 64 when the rest is spaces; a valid time within the
    TIMESTAMP range; an index within INTEGER), the session start goes
    through: it returns index 0
    for a missing table, 1 for a table without session index and the
    largest index plus 1 otherwise, commits exactly one SessionStart row,
    the row as the table stores it, at the end of the table, and leaves
    the connection idle. *)
Theorem tryBeginSession_succeeds (H : Host) (faults : nat -> bool)
    (name secret version section : string) (time : Date) (setupId : string) (db : Db)
    (stored : Row) :
  let n := match committed db !! name with
           | None => 0
           | Some rows => match maxSession rows with Some m => m + 1 | None => 1 end
           end in
  let row := {| r_session := Some n; r_version := version;
                r_section := (match section with EmptyString => "Default" | _ => section end);
                r_eventType := "SessionStart"; r_time := time;
                r_data := JObj [("setup", JStr setupId)] |} in
  authenticate H name secret = true ->
  tx db = TxNone ->
  quietFrom faults db ->
  storedRow row = Some stored ->
  exists db' msg,
    tryBeginSession H true faults name secret version section time setupId db
    = (db', Returned {| sessionId := n; message := msg |})
    /\ committed db'
       = <[name := (default [] (committed db !! name) ++ [stored])%list]> (committed db)
    /\ tx db' = TxNone.
Proof.
  intros n row Hauth Htx Hquiet Hstored. subst n row.
  rewrite (tryBeginSession_quiet faults _ _ _ _ _ _ _ _ _ Hquiet).
  destruct db as [com wrk txs iss]. cbn [tx committed] in *. subst txs.
  unfold tryBeginSession. rewrite Hauth. cbn [negb].
  unfold beginSession_try, beginSession_finish, poolConnect, awaitQuery, await,
    recordEntry, createTable, bind, ret, throw, query, noFaults.
  cbn -[storedRow maxSession Z.add].
  destruct (com !! name) as [rows|] eqn:Htable; cbn -[storedRow maxSession Z.add].
  - rewrite Htable. cbn -[storedRow maxSession Z.add].
    destruct (maxSession rows) as [m|] eqn:Hmax; cbn -[storedRow maxSession Z.add];
      change (0 + 1) with 1;
      repeat (first [rewrite Htable | rewrite Hstored]; cbn -[storedRow maxSession Z.add]);
      eauto.
  - repeat (first [rewrite Htable | rewrite lookup_insert_eq | rewrite Hstored];
            cbn -[storedRow maxSession Z.add]).
    rewrite insert_insert_eq. eauto.
Qed.

Lemma tryBeginSession_succeeds_witness :
  exists db' msg,
    tryBeginSession demoHost true noFaults "teama" "s3cret" "1.0" "Menu" (Some 0) "?"
                    (teamaDb [])
    = (db', Returned {| sessionId := 1; message := msg |})
    /\ committed db' !! "teama"
       = Some [{| r_session := Some 1; r_version := "1.0"; r_section := "Menu";
                  r_eventType := "SessionStart"; r_time := Some 0;
                  r_data := JObj [("setup", JStr "?")] |}]
    /\ tx db' = TxNone.
Proof.
  destruct (tryBeginSession_succeeds demoHost noFaults "teama" "s3cret" "1.0" "Menu"
              (Some 0) "?" (teamaDb []) _ eq_refl eq_refl (fun n _ => eq_refl) eq_refl) as (db' & msg & Hrun & Hrows & Htx).
  exists db', msg. split; [exact Hrun |]. split; [|exact Htx].
  rewrite Hrows. vm_compute. reflexivity.
Defined.

(** X12. A connection inside an aborted transaction stays there through
    every later session start: the call commits nothing, leaves the
    transaction aborted, and never returns a session index (BEGIN is
    refused, and the script sends neither COMMIT nor ROLLBACK before
    BEGIN went through). *)
Theorem aborted_connection_stays_aborted (H : Host) (connects : bool)
    (faults : nat -> bool) (name secret version section : string) (time : Date)
    (setupId : string) (db : Db) :
  tx db = TxFailed ->
  let after := tryBeginSession H connects faults name secret version section time
                               setupId db in
  tx (fst after) = TxFailed
  /\ committed (fst after) = committed db
  /\ forall r, snd after = Returned r -> sessionId r = -1.
Proof.
  intros Htx after. subst after.
  destruct db as [com wrk txs iss]. cbn [tx] in Htx. subst txs.
  unfold tryBeginSession. destruct (authenticate H name secret); cbn [negb].
  - unfold beginSession_try, poolConnect, awaitQuery, await, bind, ret, throw, query.
    destruct connects; cbn.
    + rewrite orb_true_r. cbn. repeat split. by intros r [= <-].
    + repeat split. discriminate.
  - cbn. repeat split. by intros r [= <-].
Qed.

Lemma aborted_connection_stays_aborted_witness :
  tx (fst (tryBeginSession demoHost true noFaults "teama" "s3cret" "1.0" "Menu" (Some 1)
             "?" {| committed := ∅; working := {["teama" := []]}; tx := TxFailed;
                    issued := [BEGIN] |}))
  = TxFailed.
Proof.
  exact (proj1 (aborted_connection_stays_aborted demoHost true noFaults "teama" "s3cret"
                  "1.0" "Menu" (Some 1) "?"
                  {| committed := ∅; working := {["teama" := []]}; tx := TxFailed;
                     issued := [BEGIN] |} eq_refl)).
Defined.

(** ** The initialization routine *)

(** X13. When [pool.connect] fails, its error escapes the routine (the
    call stands before the [try] block) and nothing is issued. With a
    client and [reset] off the routine issues nothing and returns. With a
    client and [reset] on, whatever statement the store refuses, the
    routine ends with the connection outside any transaction; it returns
    only when BEGIN, DROP TABLE and COMMIT all went through, and
    otherwise the last statement it issued is a ROLLBACK and the
    exception escapes. *)
Theorem initialize_ends_transaction (faults : nat -> bool) (reset : bool) (db : Db) :
  initialize false faults reset db = (db, Escaped ConnectError)
  /\ initialize true faults false db = (db, Returned tt)
  /\ tx (fst (initialize true faults true db)) = TxNone
  /\ (snd (initialize true faults true db) = Returned tt
      \/ (exists e, snd (initialize true faults true db) = Escaped e)
         /\ last (issued (fst (initialize true faults true db))) = Some ROLLBACK).
Proof.
  split; [reflexivity|]. split; [reflexivity|].
  unfold initialize, awaitQuery, await, bind, ret, query.
  destruct db as [com wrk txs iss].
  cbn -[forallb foldr last].
  destruct (faults (length iss)), txs; cbn -[forallb foldr last];
    repeat match goal with
           | |- context [faults ?n] => destruct (faults n); cbn -[forallb foldr last]
           | |- context [forallb ?f ?l] => destruct (forallb f l); cbn -[forallb foldr last]
           end;
    rewrite ?last_snoc; (split; [reflexivity|]); first [by left | right; eauto].
Qed.

(** ** Connect requests *)

(** X14. A connect request answered with a session key: the index is not
    negative, the user name sanitizes to a valid table name for which the
    trimmed secret authenticates, the key was not in the cache, the cache
    gains exactly the entry of the new session (table name, index,
    version and section or their placeholder, current time, next
    sequence 0), and the table of that name has gained one row carrying
    the index. *)
Theorem connected_reply_postcondition (H : Host) (invalidTimestamp : Date -> bool)
    (now : Z) (faults : nat -> bool) (connects : bool) (generate : nat -> string)
    (fuel : nat) (body : JsVal) (st st' : Server) (key : string) (idx : Z)
    (msg : Message) :
  settledTx (db st) ->
  tryConnectWith H invalidTimestamp now faults connects generate fuel body st
  = Some (st', Returned (SendConnected key idx msg)) ->
  let name := toTableName (trim (asString (get body "userName"))) in
  0 <= idx
  /\ isValidIdentifier name = true
  /\ authenticate H name (trim (asString (get body "secret"))) = true
  /\ sessions st !! key = None
  /\ sessions st'
     = <[key := {| s_table := name; s_id := idx;
                   s_version := textOrPlaceholder (get body "version");
                   s_section := textOrPlaceholder (get body "section");
                   s_lastAccess := now; s_nextSequence := 0 |}]> (sessions st)
  /\ exists row,
       r_session row = Some idx
       /\ committed (db st') !! name
          = Some (default [] (committed (db st) !! name) ++ [row])%list.
Proof.
  intros Htx Hrun name. revert Hrun. unfold tryConnectWith. fold name.
  repeat match goal with
         | |- context [if negb ?c then _ else _] => destruct c eqn:?; cbn [negb];
                                                    [|discriminate]
         end.
  destruct (invalidTimestamp _); [discriminate|].
  destruct (tryBeginSession _ _ _ _ _ _ _ _ _ _) as [db' [[sid m]|e]] eqn:Hbegin;
    [|discriminate].
  destruct (sid <? 0) eqn:Hsid; [discriminate|]. apply Z.ltb_ge in Hsid.
  cbn [sessions].
  destruct (generateSessionKey fuel generate 0 (sessions st)) as [[k draws]|] eqn:Hgen;
    [|discriminate].
  intros [= <- <- <- <-]. cbn [sessions db].
  split; [done|]. split; [done|].
  assert (Hauth : authenticate H name (trim (asString (get body "secret"))) = true).
  { destruct (authenticate _ _ _) eqn:Hauth; [done|].
    unfold tryBeginSession in Hbegin. rewrite Hauth in Hbegin. cbn [negb] in Hbegin.
    injection Hbegin as _ <- _. lia. }
  split; [done|]. split; [by eapply generateSessionKey_fresh|]. split; [done|].
  apply tryBeginSession_cases in Hbegin
      as [[_ [= -> _]] | [(r & Hok & [= <-]) | (e & _ & [[= -> _] | [e' [=]]])]];
    try lia.
  destruct (beginSession_try_success _ _ _ _ _ _ _ _ _ _ _ Htx Hok)
    as (_ & _ & row & Hrow & Hcase).
  exists row. split; [done|].
  destruct (committed (db st) !! name); destruct Hcase as [_ ->];
    by rewrite lookup_insert_eq.
Qed.

Lemma connected_reply_postcondition_witness :
  let st := {| sessions := ∅; db := emptyDb |} in
  let after := tryConnectWith demoHost (fun _ => false) 1000 noFaults true
                              (fun _ => "k1") 1 (connectBody (JNum (NumInt 0))) st in
  exists st', after = Some (st', Returned (SendConnected "k1" 0 (MsgCreated "teama" 0)))
              /\ sessions st' !! "k1"
                 = Some {| s_table := "teama"; s_id := 0; s_version := "?";
                           s_section := "?"; s_lastAccess := 1000; s_nextSequence := 0 |}.
Proof.
  intros st after.
  destruct after as [[st' out]|] eqn:Hafter; [|by vm_compute in Hafter].
  assert (Hout : out = Returned (SendConnected "k1" 0 (MsgCreated "teama" 0))).
  { vm_compute in Hafter. by injection Hafter as _ <-. }
  subst out. exists st'. split; [reflexivity|].
  destruct (connected_reply_postcondition demoHost (fun _ => false) 1000 noFaults true
              (fun _ => "k1") 1 (connectBody (JNum (NumInt 0))) st st' "k1" 0
              (MsgCreated "teama" 0) (or_introl eq_refl) Hafter)
    as (_ & _ & _ & _ & Hs & _).
  rewrite Hs. apply lookup_insert_eq.
Defined.

(** X15. A connect request that is not answered with a session key leaves
    the cache as it was; and unless the refusal comes from the session
    start itself, it leaves the store as it was too. *)
Theorem refused_connect_creates_no_session (H : Host) (invalidTimestamp : Date -> bool)
    (now : Z) (faults : nat -> bool) (connects : bool) (generate : nat -> string)
    (fuel : nat) (body : JsVal) (st st' : Server) (out : Completion Reply) :
  tryConnectWith H invalidTimestamp now faults connects generate fuel body st
  = Some (st', out) ->
  (forall key idx msg, out <> Returned (SendConnected key idx msg)) ->
  sessions st' = sessions st
  /\ (forall text, out = Returned (SendText HTTP_BAD_REQUEST text) ->
                   (forall m, text <> BeginSessionFailed m) -> st' = st).
Proof.
  unfold tryConnectWith.
  repeat match goal with
         | |- context [if ?c then _ else _] =>
             destruct c; [intros [= <- <-] _; split; [done|]; intros; by destruct st|]
         end.
  destruct (tryBeginSession _ _ _ _ _ _ _ _ _ _) as [db' [[sid m]|e]].
  - destruct (sid <? 0).
    + intros [= <- <-] _. split; [done|]. intros text [= <-] Hm. by destruct (Hm m).
    + cbn [sessions].
      destruct (generateSessionKey _ _ _ _) as [[k draws]|]; [|discriminate].
      intros [= <- <-] Hno. by destruct (Hno k sid m).
  - intros [= <- <-] _. split; [done|]. discriminate.
Qed.

Lemma refused_connect_creates_no_session_witness :
  let st := {| sessions := {["k1" := demoSession 0 0]}; db := emptyDb |} in
  exists st' out,
    tryConnectWith demoHost (fun _ => false) 1000 noFaults true (fun _ => "k2") 1
                   (JObj [("userName", JStr "teamA"); ("secret", JStr "wrong")]) st
    = Some (st', out)
    /\ sessions st' = sessions st.
Proof.
  intros st.
  destruct (tryConnectWith demoHost (fun _ => false) 1000 noFaults true (fun _ => "k2") 1
              (JObj [("userName", JStr "teamA"); ("secret", JStr "wrong")]) st)
    as [[st' out]|] eqn:Hrun; [|by vm_compute in Hrun].
  exists st', out. split; [reflexivity|].
  refine (proj1 (refused_connect_creates_no_session _ _ _ _ _ _ _ _ _ _ _ Hrun _)).
  intros key idx msg ->. vm_compute in Hrun. discriminate.
Defined.

(** ** Log requests, further *)

(** X16. A log request whose session key is missing or not a non-empty
    string, or is neither a key of the cache nor the name of a member of
    [Object.prototype] (for which [sessions[key]] finds the inherited
    member), is answered 400 and changes nothing: no session is refreshed
    and the store is not touched. *)
Theorem unresolved_log_changes_nothing (H : Host) (invalidTimestamp : Date -> bool)
    (now : Z) (faults : nat -> bool) (body : JsVal) (st : Server) :
  isValidString (get body "sessionKey") = false
  \/ (sessions st !! trim (asString (get body "sessionKey")) = None
      /\ isPrototypeMember (trim (asString (get body "sessionKey"))) = false) ->
  fst (tryLogEventWith H invalidTimestamp now faults body st) = st
  /\ status (snd (tryLogEventWith H invalidTimestamp now faults body st))
     = HTTP_BAD_REQUEST.
Proof.
  intros Hkey. unfold tryLogEventWith.
  destruct (negb (truthy body)); [done|].
  destruct Hkey as [Hkey | [Hnone _]]; [by rewrite Hkey|].
  destruct (negb (isValidString _)); [done|].
  by rewrite Hnone.
Qed.

Lemma unresolved_log_changes_nothing_witness :
  fst (tryLogEventWith demoHost (fun _ => false) 1000 noFaults
         (logBody (JNum (NumInt 0)) (JNum (NumInt 5)) JUndefined)
         {| sessions := {["other" := demoSession 0 0]}; db := emptyDb |})
  = {| sessions := {["other" := demoSession 0 0]}; db := emptyDb |}.
Proof.
  refine (proj1 (unresolved_log_changes_nothing demoHost (fun _ => false) 1000 noFaults
                   (logBody (JNum (NumInt 0)) (JNum (NumInt 5)) JUndefined)
                   {| sessions := {["other" := demoSession 0 0]}; db := emptyDb |} _)).
  right. split; vm_compute; reflexivity.
Defined.

Lemma textOrPlaceholder_nonempty (text : JsVal) : textOrPlaceholder text <> "".
Proof.
  unfold textOrPlaceholder. destruct text; try done.
  destruct (isValidString _); [|done]. by destruct (trim s).
Qed.

Lemma section_fallback_unused (text : JsVal) :
  match textOrPlaceholder text with
  | EmptyString => "Default"
  | _ => textOrPlaceholder text
  end = textOrPlaceholder text.
Proof.
  pose proof (textOrPlaceholder_nonempty text). by destruct (textOrPlaceholder text).
Qed.

(** The row of a log request, as the request and the session give it. *)
Lemma tryLogEventWith_statement H invalidTimestamp now faults body st key session :
  resolves body st key session ->
  db (fst (tryLogEventWith H invalidTimestamp now faults body st)) <> db st ->
  exists db1 outcome,
    query faults
      (InsertRow (s_table session)
         {| r_session := Some (s_id session); r_version := s_version session;
            r_section := textOrPlaceholder (get body "section");
            r_eventType := textOrPlaceholder (get body "eventType");
            r_time := dateOrInvalid H (get body "timecode");
            r_data := parseData (get body "data") |})
      (db st)
    = (db1, outcome)
    /\ issued (db (fst (tryLogEventWith H invalidTimestamp now faults body st)))
       = issued db1
    /\ invalidTimestamp (dateOrInvalid H (get body "timecode")) = false
    /\ isValidString (get body "eventType") = true.
Proof.
  intros Hres. destruct (resolves_checks _ _ _ _ Hres) as (Hbody & Hkey & Htrim & Hfound).
  unfold tryLogEventWith. rewrite Hbody, Hkey, Htrim, Hfound. cbn [negb].
  destruct (isValidInteger H (get body "sequence")); cbn [negb]; [|done].
  destruct (_ <? _); [done|].
  destruct (invalidTimestamp _); [done|].
  destruct (isValidString (get body "eventType")); cbn [negb]; [|done].
  unfold recordEntry. cbn [sessions db s_table s_id s_version touch].
  rewrite section_fallback_unused.
  match goal with |- context [query faults ?q (db st)] =>
    destruct (query faults q (db st)) as [db' outcome] eqn:Hq end.
  intros _. exists db', outcome. by destruct outcome.
Qed.

(** X17. The row a log request writes is made of the session's index and
    version (not of anything the request says about them), the request's
    section and event type trimmed, or ['?'] when blank or missing, the
    request's timecode as a date and the payload by shape; it is written
    only for a timecode that passed the timestamp test and an event type
    that is a non-empty string. The fallback section ['Default'] of
    [recordEntry] is never used by a log request. *)
Theorem written_row (H : Host) (invalidTimestamp : Date -> bool) (now : Z)
    (faults : nat -> bool) (body : JsVal) (st : Server) (key : string)
    (session : SessionInfo) (row : Row) (res : QueryResult) :
  resolves body st key session ->
  query faults (InsertRow (s_table session) row) (db st)
  = (db (fst (tryLogEventWith H invalidTimestamp now faults body st)), Some res) ->
  row = {| r_session := Some (s_id session); r_version := s_version session;
           r_section := textOrPlaceholder (get body "section");
           r_eventType := textOrPlaceholder (get body "eventType");
           r_time := dateOrInvalid H (get body "timecode");
           r_data := parseData (get body "data") |}
  /\ invalidTimestamp (r_time row) = false
  /\ isValidString (get body "eventType") = true.
Proof.
  intros Hres Hq.
  destruct (tryLogEventWith_statement H invalidTimestamp now faults body st key session
              Hres) as (db1 & outcome & Hq' & Hissued & Hgate & Htype).
  { intros Hsame. rewrite Hsame in Hq. by apply query_changes_db in Hq. }
  pose proof (query_issued _ _ _ _ _ Hq) as Hi.
  pose proof (query_issued _ _ _ _ _ Hq') as Hi'.
  rewrite Hissued, Hi' in Hi. apply app_inj_tail in Hi as [_ [= <-]]. done.
Qed.

Lemma written_row_witness :
  r_section {| r_session := Some 0; r_version := "1.0"; r_section := "?";
               r_eventType := "LevelStart"; r_time := Some 5;
               r_data := JObj [("value", JNum (NumInt 7))] |}
  = textOrPlaceholder (get (logBody (JNum (NumInt 0)) (JNum (NumInt 5)) (JNum (NumInt 7)))
                           "section").
Proof.
  assert (Hres : resolves (logBody (JNum (NumInt 0)) (JNum (NumInt 5)) (JNum (NumInt 7)))
                   {| sessions := {["k1" := demoSession 0 0]}; db := teamaDb [] |}
                   "k1" (demoSession 0 0)).
  { exists "k1". split; [reflexivity|]. split; [discriminate|]. split; reflexivity. }
  destruct (written_row demoHost (fun _ => false) 1000 noFaults _ _ "k1" (demoSession 0 0)
              {| r_session := Some 0; r_version := "1.0"; r_section := "?";
                 r_eventType := "LevelStart"; r_time := Some 5;
                 r_data := JObj [("value", JNum (NumInt 7))] |} ResCommand Hres)
    as (Hrow & _ & _).
  { vm_compute. reflexivity. }
  by rewrite Hrow at 1.
Defined.




(** X19. A session that a log request has just resolved at time [now],
    whatever became of the request, survives every sweep that runs less
    than the session interval later, with its access time [now]. *)
Theorem touched_session_survives_sweep (H : Host) (invalidTimestamp : Date -> bool)
    (now : Z) (faults : nat -> bool) (body : JsVal) (st : Server) (key : string)
    (session : SessionInfo) (now' : Z) :
  resolves body st key session ->
  now' - SESSION_INTERVAL <= now ->
  exists sw session',
    cleanupOldSessions now'
      (sessions (fst (tryLogEventWith H invalidTimestamp now faults body st)))
    = Returned sw
    /\ cache sw !! key = Some session'
    /\ s_lastAccess session' = now.
Proof.
  intros Hres Hrecent.
  destruct (cleanupOldSessions_result now'
              (sessions (fst (tryLogEventWith H invalidTimestamp now faults body st))))
    as (sw & Hrun & Hcache & _).
  assert (Hafter : exists session',
             sessions (fst (tryLogEventWith H invalidTimestamp now faults body st)) !! key
             = Some session' /\ s_lastAccess session' = now).
  { destruct (tryLogEventWith_outcome H invalidTimestamp now faults body st key session
                Hres) as [_ Hs _ | row res _ _ _ Hs _ | row _ _ Hs _];
      rewrite Hs, lookup_insert_eq; by eexists. }
  destruct Hafter as (session' & Hfound & Hlast).
  exists sw, session'. split; [done|]. split; [|done].
  rewrite Hcache, Hfound. cbn [swept]. rewrite Hlast.
  apply Z.ltb_ge in Hrecent. by rewrite Hrecent.
Qed.

Lemma touched_session_survives_sweep_witness :
  exists sw session',
    cleanupOldSessions 1800999
      (sessions (fst (tryLogEventWith demoHost (timestampTest demoHost) 1000 noFaults
                        (logBody (JNum (NumInt 0)) (JNum (NumInt 5)) JUndefined)
                        {| sessions := {["k1" := demoSession 0 0]}; db := emptyDb |})))
    = Returned sw
    /\ cache sw !! "k1" = Some session'
    /\ s_lastAccess session' = 1000.
Proof.
  apply (touched_session_survives_sweep demoHost (timestampTest demoHost) 1000 noFaults
           _ _ "k1" (demoSession 0 0) 1800999).
  - exists "k1". split; [reflexivity|]. split; [discriminate|]. split; reflexivity.
  - vm_compute. discriminate.
Defined.

Lemma cleanup_loop_keeps threshold (keys : list string) (m : gmap string SessionInfo) :
  forall d r,
    (forall k, k ∈ keys -> exists s, m !! k = Some s /\ threshold <= s_lastAccess s) ->
    foldl (cleanupStep threshold)
          (Returned {| cache := m; deleted := d; remaining := r |}) keys
    = Returned {| cache := m; deleted := d; remaining := (r + length keys)%nat |}.
Proof.
  induction keys as [|key rest IH]; intros d r Hkeys.
  - cbn. by rewrite Nat.add_0_r.
  - destruct (Hkeys key) as (s & Hs & Hnew); [by left|].
    cbn [foldl cleanupStep cache]. rewrite Hs.
    apply Z.ltb_ge in Hnew. rewrite Hnew. cbn [deleted remaining].
    rewrite IH by (intros k Hk; apply Hkeys; by right).
    cbn [length]. do 2 f_equal. lia.
Qed.

(** X20. After a sweep, a further sweep at the same or an earlier time
    removes nothing: it returns the cache unchanged, counts no session
    as deleted and all of them as remaining. *)
Theorem second_sweep_removes_nothing (now now' : Z) (sessions : gmap string SessionInfo)
    (sw : Sweep) :
  cleanupOldSessions now sessions = Returned sw ->
  now' <= now ->
  cleanupOldSessions now' (cache sw)
  = Returned {| cache := cache sw; deleted := 0; remaining := size (cache sw) |}.
Proof.
  intros Hrun Hearlier.
  destruct (cleanupOldSessions_result now sessions) as (sw' & Hrun' & Hcache & _).
  rewrite Hrun in Hrun'. injection Hrun' as <-.
  unfold cleanupOldSessions. rewrite cleanup_loop_keeps.
  - unfold Object_keys. by rewrite length_fmap, length_map_to_list.
  - intros k Hk. apply Object_keys_spec in Hk as [s Hs]. exists s. split; [done|].
    rewrite Hcache in Hs. destruct (sessions !! k) as [s0|]; [|discriminate].
    cbn [swept] in Hs. destruct (s_lastAccess s0 <? now - SESSION_INTERVAL) eqn:Hold;
      [discriminate|]. injection Hs as <-. apply Z.ltb_ge in Hold. lia.
Qed.

Lemma second_sweep_removes_nothing_witness :
  cleanupOldSessions 4000000 (<["new" := demoSession 3200000 4]> ∅)
  = Returned {| cache := <["new" := demoSession 3200000 4]> ∅; deleted := 0;
                remaining := size (<["new" := demoSession 3200000 4]>
                                     (∅ : gmap string SessionInfo)) |}.
Proof.
  assert (Hrun : cleanupOldSessions 5000000
                   (<["old" := demoSession 1000 0]>
                      (<["new" := demoSession 3200000 4]> ∅))
                 = Returned {| cache := <["new" := demoSession 3200000 4]> ∅;
                               deleted := 1; remaining := 1 |}).
  { vm_compute. reflexivity. }
  assert (Hearlier : 4000000 <= 5000000) by lia.
  exact (second_sweep_removes_nothing 5000000 4000000 _ _ Hrun Hearlier).
Defined.

(** ** Log requests and the store *)

(** X21. What lines 365-405 do with a request the timestamp test lets
    through (as the source writes the test, none is: X24). A log request
    that passes every check, on an idle connection whose store holds the
    session's table, meets no fault and finds that the row fits the
    columns of the table (version, section and event type of at most 64
    characters, or cut to 64 when the rest is spaces; a valid time within
    the TIMESTAMP range; an index within INTEGER), is answered with
    success; the row as the table stores it is appended to the committed
    table, the other tables are as before, and the session's next
    sequence number is the request's plus one. *)
Theorem log_event_is_recorded (H : Host) (invalidTimestamp : Date -> bool) (now : Z)
    (faults : nat -> bool) (body : JsVal) (st : Server) (key : string)
    (session : SessionInfo) (sequence : Z) (rows : list Row) (stored : Row) :
  resolves body st key session ->
  get body "sequence" = JNum (NumInt sequence) ->
  s_nextSequence session <= sequence ->
  invalidTimestamp (dateOrInvalid H (get body "timecode")) = false ->
  isValidString (get body "eventType") = true ->
  tx (db st) = TxNone ->
  committed (db st) !! s_table session = Some rows ->
  storedRow {| r_session := Some (s_id session); r_version := s_version session;
               r_section := textOrPlaceholder (get body "section");
               r_eventType := textOrPlaceholder (get body "eventType");
               r_time := dateOrInvalid H (get body "timecode");
               r_data := parseData (get body "data") |} = Some stored ->
  faults (length (issued (db st))) = false ->
  let after := tryLogEventWith H invalidTimestamp now faults body st in
  snd after = SendEmpty 200
  /\ committed (db (fst after))
     = <[s_table session := (rows ++ [stored])%list]> (committed (db st))
  /\ sessions (fst after)
     = <[key := setNextSequence (addOne sequence) (touch now session)]> (sessions st).
Proof.
  intros Hres Hseq Hfresh Hgate Htype Htx Htable Hstored Hfault after. subst after.
  destruct (resolves_checks _ _ _ _ Hres) as (Hbody & Hkey & Htrim & Hfound).
  unfold tryLogEventWith. rewrite Hbody, Hkey, Htrim, Hfound, Hseq. cbn [negb].
  rewrite isValidInteger_int. cbn [negb asInteger]. rewrite touch_nextSequence.
  apply Z.ltb_ge in Hfresh. rewrite Hfresh, Hgate, Htype. cbn [negb].
  unfold recordEntry, query. cbn [sessions db s_table s_id s_version touch].
  rewrite section_fallback_unused, Hfault, Htx. cbn [orb].
  unfold execute, view, setView.
  cbn [logIssued tx committed working issued]. rewrite Htx, Htable, Hstored.
  cbn [fst snd sessions db committed]. by rewrite insert_insert_eq.
Qed.

Lemma log_event_is_recorded_witness :
  let after := tryLogEventWith demoHost (fun _ => false) 1000 noFaults
                 (logBody (JNum (NumInt 0)) (JNum (NumInt 5)) (JNum (NumInt 7)))
                 {| sessions := {["k1" := demoSession 0 0]}; db := teamaDb [] |} in
  snd after = SendEmpty 200
  /\ committed (db (fst after))
     = <["teama" := [{| r_session := Some 0; r_version := "1.0"; r_section := "?";
                        r_eventType := "LevelStart"; r_time := Some 5;
                        r_data := JObj [("value", JNum (NumInt 7))] |}]]>
         (committed (teamaDb [])).
Proof.
  assert (Hres : resolves (logBody (JNum (NumInt 0)) (JNum (NumInt 5)) (JNum (NumInt 7)))
                   {| sessions := {["k1" := demoSession 0 0]}; db := teamaDb [] |}
                   "k1" (demoSession 0 0)).
  { exists "k1". split; [reflexivity|]. split; [discriminate|]. split; reflexivity. }
  assert (Hfresh : s_nextSequence (demoSession 0 0) <= 0) by (cbn; lia).
  destruct (log_event_is_recorded demoHost (fun _ => false) 1000 noFaults _ _ "k1"
              (demoSession 0 0) 0 [] _ Hres eq_refl Hfresh eq_refl eq_refl eq_refl
              eq_refl eq_refl eq_refl) as (Hreply & Hrows & _).
  split; [exact Hreply | exact Hrows].
Defined.

(** X22. On a connection left inside an aborted transaction, a log
    request that passes every check is answered 500: the store refuses
    the row, the session keeps its next sequence number and nothing is
    committed. The statement went through [pool.query], so the pool
    destroys the client: the aborted transaction is gone with it and the
    next statement finds an idle connection on the committed tables. *)
Theorem log_on_aborted_connection_fails (H : Host) (invalidTimestamp : Date -> bool)
    (now : Z) (faults : nat -> bool) (body : JsVal) (st : Server) (key : string)
    (session : SessionInfo) (sequence : Z) :
  resolves body st key session ->
  get body "sequence" = JNum (NumInt sequence) ->
  s_nextSequence session <= sequence ->
  invalidTimestamp (dateOrInvalid H (get body "timecode")) = false ->
  isValidString (get body "eventType") = true ->
  tx (db st) = TxFailed ->
  let after := tryLogEventWith H invalidTimestamp now faults body st in
  status (snd after) = HTTP_INTERNAL_ERROR
  /\ sessions (fst after) = <[key := touch now session]> (sessions st)
  /\ committed (db (fst after)) = committed (db st)
  /\ working (db (fst after)) = committed (db st)
  /\ tx (db (fst after)) = TxNone.
Proof.
  intros Hres Hseq Hfresh Hgate Htype Htx after. subst after.
  destruct (resolves_checks _ _ _ _ Hres) as (Hbody & Hkey & Htrim & Hfound).
  unfold tryLogEventWith. rewrite Hbody, Hkey, Htrim, Hfound, Hseq. cbn [negb].
  rewrite isValidInteger_int. cbn [negb asInteger]. rewrite touch_nextSequence.
  apply Z.ltb_ge in Hfresh. rewrite Hfresh, Hgate, Htype. cbn [negb].
  unfold recordEntry, query. cbn [sessions db]. rewrite Htx, orb_true_r.
  by cbn [fst snd status sessions db afterFailure logIssued poolDiscard tx committed
          working].
Qed.

Lemma log_on_aborted_connection_fails_witness :
  let after := tryLogEventWith demoHost (fun _ => false) 1000 noFaults
                 (logBody (JNum (NumInt 0)) (JNum (NumInt 5)) JUndefined)
                 {| sessions := {["k1" := demoSession 0 0]};
                    db := {| committed := {["teama" := []]};
                             working := {["teama" := []]}; tx := TxFailed;
                             issued := [BEGIN] |} |} in
  status (snd after) = HTTP_INTERNAL_ERROR /\ tx (db (fst after)) = TxNone.
Proof.
  assert (Hres : resolves (logBody (JNum (NumInt 0)) (JNum (NumInt 5)) JUndefined)
                   {| sessions := {["k1" := demoSession 0 0]};
                      db := {| committed := {["teama" := []]};
                               working := {["teama" := []]}; tx := TxFailed;
                               issued := [BEGIN] |} |}
                   "k1" (demoSession 0 0)).
  { exists "k1". split; [reflexivity|]. split; [discriminate|]. split; reflexivity. }
  assert (Hfresh : s_nextSequence (demoSession 0 0) <= 0) by (cbn; lia).
  destruct (log_on_aborted_connection_fails demoHost (fun _ => false) 1000 noFaults _ _
              "k1" (demoSession 0 0) 0 Hres eq_refl Hfresh eq_refl eq_refl eq_refl)
    as (Hreply & _ & _ & _ & Htx).
  split; [exact Hreply | exact Htx].
Defined.

(** ** The handlers as written *)

(** X23. As the source writes the timestamp test, a connect request is
    always answered 400 with one of the validation texts and changes
    nothing: the session start is never attempted (the text is never the
    message of a session start), whatever the credentials. *)
Theorem tryConnect_never_starts_session (H : Host) (now : Z) (faults : nat -> bool)
    (connects : bool) (generate : nat -> string) (fuel : nat) (body : JsVal)
    (st : Server) :
  exists text,
    tryConnect H now faults connects generate fuel body st
    = Some (st, Returned (SendText HTTP_BAD_REQUEST text))
    /\ forall m, text <> BeginSessionFailed m.
Proof.
  unfold tryConnect, tryConnectWith. rewrite timestampTest_always.
  repeat match goal with
         | |- context [if ?c then _ else _] =>
             destruct c; [eexists; split; [reflexivity | discriminate]|]
         end.
  eexists. split; [reflexivity | discriminate].
Qed.

(** X24. As the source writes the timestamp test, a log request never
    reaches the store and never moves a sequence number: the store is as
    before, the cache is as before except that a resolved session has its
    access time refreshed, and the reply is a 400 or, for a sequence
    number below the session's next one, the empty 200. *)
Theorem tryLogEvent_records_nothing (H : Host) (now : Z) (faults : nat -> bool)
    (body : JsVal) (st : Server) :
  let after := tryLogEvent H now faults body st in
  db (fst after) = db st
  /\ (fst after = st
      \/ exists key session,
           sessions st !! key = Some session
           /\ sessions (fst after) = <[key := touch now session]> (sessions st))
  /\ (status (snd after) = HTTP_BAD_REQUEST
      \/ snd after = SendEmpty 200
         /\ exists key session,
              sessions st !! key = Some session
              /\ asInteger (get body "sequence") < s_nextSequence session).
Proof.
  intros after. subst after. unfold tryLogEvent, tryLogEventWith.
  destruct (negb (truthy body)); [by repeat split; left|].
  destruct (negb (isValidString _)); [by repeat split; left|].
  destruct (sessions st !! _) as [session|] eqn:Hfound; [|by repeat split; left].
  rewrite timestampTest_always, touch_nextSequence.
  destruct (negb (isValidInteger _ _)).
  { split; [done|]. split; [right; eauto | by left]. }
  destruct (_ <? _) eqn:Hdup.
  - apply Z.ltb_lt in Hdup. split; [done|]. split; right; eauto.
  - split; [done|]. split; [right; eauto | by left].
Qed.

(** ** The persisted payload *)







(** ** The sequence counter *)


(** The second turn of a log request changes [nextSequence] only when
    the write went through, and then to the request's number plus one,
    whatever the counter holds by then. *)
Lemma logEventComplete_sessions faults p st :
  let after := logEventComplete faults p st in
  (snd after = SendEmpty 200
   /\ sessions (fst after)
      = alter (setNextSequence (addOne (p_sequence p))) (p_key p) (sessions st))
  \/ (status (snd after) = HTTP_INTERNAL_ERROR /\ sessions (fst after) = sessions st).
Proof.
  unfold logEventComplete.
  destruct (recordEntry _ _ _ _ _ _ _ _ _) as [db' [res|]]; [by left | by right].
Qed.



